(** * NEAR trading dashboard: ingestion and aggregation pipeline

    A shallow embedding of the data pipeline of the dashboard:

    - [src/lib/coingecko.ts]: the rate-limited fetch client
      ([checkRateLimit], [waitForRateLimit], [fetchFromCoinGecko]), the
      snapshot builders ([transformPriceData], [transformVolumeData]) and the
      combined fetch ([fetchAllData]);
    - [src/lib/utils.ts]: [calculatePercentage], [getTimeRangeStart],
      [isValidTimeRange];
    - [src/app/api/volumes/route.ts] and
      [src/app/api/volumes/history/exchanges/route.ts]: the two volume
      queries.

    JavaScript [number]s are kept abstract behind the class [JsNumber]; the
    programs are written once against that interface.  Its reference instance
    is IEEE-754 binary64 ([PrimFloat]), which is what the code runs on; a
    second instance over the canonical rationals [Qc] is used where a
    statement is about exact arithmetic.  Dates are integers (milliseconds
    since the epoch), strings are [string], a JavaScript [Map] is an
    association list in insertion order, a MongoDB collection is the list of
    its documents.  The module variables of the fetch client and the clock
    are threaded as a [Process] state; a promise is represented by the way
    it settles.

    The first part holds the programs, the second part their properties. *)

From Stdlib Require Import List Bool Arith ZArith Lia String Ascii DecimalString.
From Stdlib Require Import Floats Uint63 QArith Qcanon.
From Stdlib Require Import Sorting.Sorted Sorting.Permutation.
Import ListNotations.

Set Implicit Arguments.

Local Open Scope string_scope.
Local Open Scope list_scope.

(** * Programs *)

(** ** JavaScript numbers *)

(** The operations the sources apply to a [number]: the literals [0] and
    [100], the four arithmetic operators, strict equality [===] and [<]. *)
Class JsNumber (num : Type) : Type := {
  num_zero : num;
  num_hundred : num;
  num_add : num -> num -> num;
  num_sub : num -> num -> num;
  num_mul : num -> num -> num;
  num_div : num -> num -> num;
  num_eqb : num -> num -> bool;
  num_ltb : num -> num -> bool
}.

Declare Scope js_scope.
Delimit Scope js_scope with js.
Infix "+" := num_add : js_scope.
Infix "-" := num_sub : js_scope.
Infix "*" := num_mul : js_scope.
Infix "/" := num_div : js_scope.
Infix "===" := num_eqb (at level 70, no associativity) : js_scope.
Infix "<?" := num_ltb : js_scope.

(** IEEE-754 binary64, the numbers of the running program.  [PrimFloat.eqb]
    is IEEE equality: [0 === -0] holds and [NaN === NaN] does not. *)
#[export] Instance float_number : JsNumber float := {|
  num_zero := 0%float;
  num_hundred := 100%float;
  num_add := PrimFloat.add;
  num_sub := PrimFloat.sub;
  num_mul := PrimFloat.mul;
  num_div := PrimFloat.div;
  num_eqb := PrimFloat.eqb;
  num_ltb := PrimFloat.ltb
|}.

(** Exact rational arithmetic: no rounding, no overflow, no special values. *)
Definition Qc_ltb (x y : Qc) : bool :=
  match (x ?= y)%Qc with Lt => true | _ => false end.

#[export] Instance exact_number : JsNumber Qc := {|
  num_zero := 0%Qc;
  num_hundred := Q2Qc (100 # 1);
  num_add := Qcplus;
  num_sub := Qcminus;
  num_mul := Qcmult;
  num_div := Qcdiv;
  num_eqb := Qc_eq_bool;
  num_ltb := Qc_ltb
|}.

(** ** Laws of arithmetic *)

(** Subtraction decides the order: [b - a] is positive exactly when
    [a < b], and [<] is asymmetric. *)
Class SubtractionOrder (num : Type) `{JsNumber num} : Prop := {
  sub_positive : forall a b : num, (num_zero <? b - a)%js = (a <? b)%js;
  ltb_asym : forall a b : num, (a <? b)%js = true -> (b <? a)%js = false
}.
Arguments SubtractionOrder num {_}.

(** The laws of exact arithmetic the sum of the shares rests on. *)
Class ExactArithmetic (num : Type) `{JsNumber num} : Prop := {
  add_assoc : forall a b c : num, (a + (b + c))%js = (a + b + c)%js;
  add_zero_l : forall a : num, (num_zero + a)%js = a;
  div_add : forall a b t : num, ((a + b) / t)%js = (a / t + b / t)%js;
  mul_add : forall a b c : num, ((a + b) * c)%js = (a * c + b * c)%js;
  whole : forall t : num,
    (t === num_zero)%js = false -> (t / t * num_hundred)%js = num_hundred
}.
Arguments ExactArithmetic num {_}.

(** Among numbers that are not [NaN], "not below" is transitive.  [b === b]
    fails for [NaN] alone. *)
Class NegativeTransitivity (num : Type) `{JsNumber num} : Prop := {
  ltb_neg_trans : forall a b c : num,
    (b === b)%js = true ->
    (a <? b)%js = false -> (b <? c)%js = false -> (a <? c)%js = false
}.
Arguments NegativeTransitivity num {_}.

(** ** Binary64 vocabulary *)

(** The mantissa of a shift record is positive and has [k] digits. *)
Definition has_digits (k : positive) (mrs : shr_record) : Prop :=
  exists q, shr_m mrs = Zpos q /\ digits2_pos q = k.

(** A result that compares above zero. *)
Definition above_zero (r : spec_float) : bool := SFltb (S754_zero false) r.

(** The place of a number that is not [NaN] in the order of binary64:
    class, then exponent, then mantissa. *)
Definition order_key (x : spec_float) : Z * Z * Z :=
  match x with
  | S754_infinity true => (-2, 0, 0)%Z
  | S754_finite true m e => (-1, - e, - Zpos m)%Z
  | S754_zero _ => (0, 0, 0)%Z
  | S754_nan => (0, 0, 0)%Z
  | S754_finite false m e => (1, e, Zpos m)%Z
  | S754_infinity false => (2, 0, 0)%Z
  end.

Definition key_lt (k1 k2 : Z * Z * Z) : Prop :=
  let '(c1, e1, m1) := k1 in
  let '(c2, e2, m2) := k2 in
  (c1 < c2 \/ (c1 = c2 /\ (e1 < e2 \/ (e1 = e2 /\ m1 < m2))))%Z.

(** ** JavaScript helpers *)

Section JsHelpers.
Context {num : Type} `{JsNumber num}.

(** Truthiness of a number: every number but [0], [-0] and [NaN]. *)
Definition truthy (x : num) : bool :=
  negb (x === num_zero)%js && (x === x)%js.

(** [x || 0] on numbers. *)
Definition or_zero (x : option num) : num :=
  match x with
  | Some v => if truthy v then v else num_zero
  | None => num_zero
  end.

(** [Array.prototype.sort(compareFn)].  ECMAScript requires the sort to be
    stable; [a] stays before [b] unless [compareFn(a, b) > 0].  A result
    that is [0] or [NaN] leaves the two elements in their order. *)
Fixpoint sort_insert (A : Type) (compareFn : A -> A -> num) (a : A)
    (sorted : list A) : list A :=
  match sorted with
  | [] => [a]
  | b :: rest =>
      if (num_zero <? compareFn a b)%js
      then b :: sort_insert compareFn a rest
      else a :: b :: rest
  end.

Definition js_sort (A : Type) (compareFn : A -> A -> num) (l : list A)
    : list A :=
  fold_right (sort_insert compareFn) [] l.

(** [a] may stand before [b]: the comparator does not ask for [b] first. *)
Definition in_order (A : Type) (compareFn : A -> A -> num) (a b : A) : Prop :=
  (num_zero <? compareFn a b)%js = false.

(** In a list in descending order of [getValue], [a] may stand before
    [b]: its value is not below that of [b]. *)
Definition descending (A : Type) (getValue : A -> num) (a b : A) : Prop :=
  (getValue a <? getValue b)%js = false.

(** [arr.reduce((sum, e) => sum + f(e), 0)]. *)
Definition reduce_sum (A : Type) (f : A -> num) (l : list A) : num :=
  fold_left (fun sum e => (sum + f e)%js) l num_zero.
End JsHelpers.

(** [arr.slice(0, end)] for an integer [end]: a negative [end] counts from
    the end of the array. *)
Definition slice_to (A : Type) (l : list A) (e : Z) : list A :=
  if (e <? 0)%Z
  then firstn (Z.to_nat (Z.of_nat (List.length l) + e)) l
  else firstn (Z.to_nat e) l.

(** [arr.slice(start)] for a natural [start]. *)
Definition slice_from (A : Type) (start : nat) (l : list A) : list A :=
  skipn start l.

(** [arr.includes(s)] on an array of strings. *)
Definition includes (l : list string) (s : string) : bool :=
  existsb (String.eqb s) l.

(** [[...new Set(arr)]] on integers: first occurrences, in order. *)
Fixpoint unique_aux (seen : list Z) (l : list Z) : list Z :=
  match l with
  | [] => []
  | x :: rest =>
      if existsb (Z.eqb x) seen then unique_aux seen rest
      else x :: unique_aux (x :: seen) rest
  end.

Definition unique (l : list Z) : list Z := unique_aux [] l.

(** A [Map<string, V>]: the entries in insertion order.  [set] on a key that
    is present replaces the value where it stands. *)
Module JsMap.
Definition t (V : Type) : Type := list (string * V).

Definition empty (V : Type) : t V := [].

Fixpoint get (V : Type) (m : t V) (k : string) : option V :=
  match m with
  | [] => None
  | (k', v) :: rest => if String.eqb k' k then Some v else get rest k
  end.

Fixpoint set (V : Type) (m : t V) (k : string) (v : V) : t V :=
  match m with
  | [] => [(k, v)]
  | (k', v') :: rest =>
      if String.eqb k' k then (k', v) :: rest
      else (k', v') :: set rest k v
  end.

Definition keys (V : Type) (m : t V) : list string := map fst m.
Definition values (V : Type) (m : t V) : list V := map snd m.
Definition entries (V : Type) (m : t V) : list (string * V) := m.
End JsMap.

(** ** Data model ([types/index.ts]) *)

(** One raw ticker of [/coins/near/tickers]; the fields the pipeline reads.
    [market_name] is [market.name], [converted_volume_usd] is
    [converted_volume.usd]. *)
Record CoinGeckoTicker (num : Type) : Type := {
  base : string;
  target : string;
  market_name : string;
  volume : num;
  converted_volume_usd : num;
  ticker_trust_score : option string;
  is_anomaly : bool;
  is_stale : bool;
  ticker_trade_url : option string
}.

Record CoinGeckoTickersResponse (num : Type) : Type := {
  coin_name : string;
  tickers : list (CoinGeckoTicker num)
}.

Record ExchangeVolume (num : Type) : Type := {
  name : string;
  volume_usd : num;
  volume_near : num;
  trading_pairs : list string;
  trust_score : option string;
  trade_url : option string
}.

(** A volume snapshot; [timestamp] is in milliseconds. *)
Record VolumeDocument (num : Type) : Type := {
  timestamp : Z;
  total_volume_usd : num;
  total_volume_near : num;
  exchange_count : nat;
  exchanges : list (ExchangeVolume num)
}.

(** [/simple/price]: [near_price] is [near.usd], and so on. *)
Record CoinGeckoPriceResponse (num : Type) : Type := {
  near_price : num;
  near_usd_market_cap : option num;
  near_usd_24h_vol : option num;
  near_usd_24h_change : option num;
  bitcoin_price : num;
  ethereum_price : num
}.

(** [market_data] of [/coins/near].  Every nested [{usd}] object is read
    with [?.], so each may be missing. *)
Record MarketData (num : Type) : Type := {
  md_ath : option num;
  md_ath_change_percentage : option num;
  md_ath_date : option string;
  md_atl : option num;
  md_atl_change_percentage : option num;
  md_high_24h : option num;
  md_low_24h : option num;
  md_price_change_percentage_7d : option num;
  md_price_change_percentage_30d : option num;
  md_circulating_supply : option num;
  md_total_supply : option num;
  md_fully_diluted_valuation : option num
}.

Record CoinGeckoCoinResponse (num : Type) : Type := {
  coin_market_cap_rank : option num;
  market_data : option (MarketData num)
}.

(** The optional fields a price snapshot gains from [/coins/near]. *)
Record Enrichment (num : Type) : Type := {
  market_cap_rank : option num;
  ath : option num;
  ath_change_percentage : option num;
  ath_date : option string;
  atl : option num;
  atl_change_percentage : option num;
  price_change_7d : option num;
  price_change_30d : option num;
  high_24h : option num;
  low_24h : option num;
  circulating_supply : option num;
  total_supply : option num;
  fully_diluted_valuation : option num
}.

(** A price snapshot.  [enrichment] is [None] when the object carries none
    of the optional keys ([transformPriceData] returned [baseData]). *)
Record PriceDocument (num : Type) : Type := {
  price_timestamp : Z;
  near_usd : num;
  btc_usd : num;
  eth_usd : num;
  near_btc : num;
  near_eth : num;
  market_cap : option num;
  volume_24h : option num;
  price_change_24h : option num;
  enrichment : option (Enrichment num)
}.

(** How a promise settles. *)
Inductive Settled (A : Type) : Type :=
| Fulfilled (value : A)
| Rejected (reason : string).
Arguments Rejected {A} reason.

(** ** Snapshot builders ([lib/coingecko.ts]) *)

Section Transform.
Context {num : Type} `{JsNumber num}.

(** [`${ticker.base}/${ticker.target}`] *)
Definition pair_label (ticker : CoinGeckoTicker num) : string :=
  base ticker ++ "/" ++ target ticker.

(** [ticker.trade_url || undefined]: [null] and the empty string are
    falsy. *)
Definition trade_url_or_undefined (u : option string) : option string :=
  match u with
  | Some "" => None
  | Some s => Some s
  | None => None
  end.

(** The body of the loop of [transformVolumeData], for one ticker.  The
    loop updates [existing] in place; here the updated record is set at the
    same key, which keeps its place in the map. *)
Definition aggregate_ticker (exchangeMap : JsMap.t (ExchangeVolume num))
    (ticker : CoinGeckoTicker num) : JsMap.t (ExchangeVolume num) :=
  if is_anomaly ticker || is_stale ticker then exchangeMap
  else
    let exchangeName := market_name ticker in
    match JsMap.get exchangeMap exchangeName with
    | Some existing =>
        JsMap.set exchangeMap exchangeName
          {| name := name existing;
             volume_usd :=
               (volume_usd existing + converted_volume_usd ticker)%js;
             volume_near := (volume_near existing + volume ticker)%js;
             trading_pairs :=
               if includes (trading_pairs existing) (pair_label ticker)
               then trading_pairs existing
               else trading_pairs existing ++ [pair_label ticker];
             trust_score := trust_score existing;
             trade_url := trade_url existing |}
    | None =>
        JsMap.set exchangeMap exchangeName
          {| name := exchangeName;
             volume_usd := converted_volume_usd ticker;
             volume_near := volume ticker;
             trading_pairs := [pair_label ticker];
             trust_score := ticker_trust_score ticker;
             trade_url := trade_url_or_undefined (ticker_trade_url ticker) |}
    end.

(** The exchange map after the loop over [data.tickers]. *)
Definition aggregate (l : list (CoinGeckoTicker num))
    : JsMap.t (ExchangeVolume num) :=
  fold_left aggregate_ticker l (JsMap.empty _).

(** A ticker the loop does not skip. *)
Definition counted (ticker : CoinGeckoTicker num) : bool :=
  negb (is_anomaly ticker || is_stale ticker).

(** The exchanges that report at least one counted ticker. *)
Definition distinct_exchanges (l : list (CoinGeckoTicker num)) : list string :=
  nodup string_dec (map (@market_name num) (filter counted l)).

(** The counted tickers of exchange [x], in the order met. *)
Definition tickers_of (x : string) (l : list (CoinGeckoTicker num))
    : list (CoinGeckoTicker num) :=
  filter (fun ticker => counted ticker && String.eqb (market_name ticker) x) l.

(** What the loop makes of an exchange's entry, if any, and one of its
    counted tickers. *)
Definition absorb (existing : option (ExchangeVolume num))
    (ticker : CoinGeckoTicker num) : ExchangeVolume num :=
  match existing with
  | Some existing =>
      {| name := name existing;
         volume_usd := (volume_usd existing + converted_volume_usd ticker)%js;
         volume_near := (volume_near existing + volume ticker)%js;
         trading_pairs :=
           if includes (trading_pairs existing) (pair_label ticker)
           then trading_pairs existing
           else trading_pairs existing ++ [pair_label ticker];
         trust_score := trust_score existing;
         trade_url := trade_url existing |}
  | None =>
      {| name := market_name ticker;
         volume_usd := converted_volume_usd ticker;
         volume_near := volume ticker;
         trading_pairs := [pair_label ticker];
         trust_score := ticker_trust_score ticker;
         trade_url := trade_url_or_undefined (ticker_trade_url ticker) |}
  end.

(** Every entry's [name] is its key. *)
Definition keyed_by_name (m : JsMap.t (ExchangeVolume num)) : Prop :=
  Forall (fun entry => name (snd entry) = fst entry) m.

(** [(a, b) => b.volume_usd - a.volume_usd] *)
Definition by_volume_desc (a b : ExchangeVolume num) : num :=
  (volume_usd b - volume_usd a)%js.

(** [Array.from(exchangeMap.values()).sort(...)] *)
Definition sorted_exchanges (l : list (CoinGeckoTicker num))
    : list (ExchangeVolume num) :=
  js_sort by_volume_desc (JsMap.values (aggregate l)).

(** [transformVolumeData]; [now] is the value of [new Date()]. *)
Definition transformVolumeData (now : Z)
    (data : CoinGeckoTickersResponse num) : VolumeDocument num :=
  let exchanges := sorted_exchanges (tickers data) in
  let totalVolumeUsd := reduce_sum (@volume_usd num) exchanges in
  let totalVolumeNear := reduce_sum (@volume_near num) exchanges in
  {| timestamp := now;
     total_volume_usd := totalVolumeUsd;
     total_volume_near := totalVolumeNear;
     exchange_count := List.length exchanges;
     exchanges := slice_to exchanges 20 |}.

(** [transformPriceData(data, coinData?)] *)
Definition transformPriceData (now : Z) (data : CoinGeckoPriceResponse num)
    (coinData : option (CoinGeckoCoinResponse num)) : PriceDocument num :=
  let nearUsd := near_price data in
  let btcUsd := bitcoin_price data in
  let ethUsd := ethereum_price data in
  let baseData (e : option (Enrichment num)) :=
    {| price_timestamp := now;
       near_usd := nearUsd;
       btc_usd := btcUsd;
       eth_usd := ethUsd;
       near_btc := (nearUsd / btcUsd)%js;
       near_eth := (nearUsd / ethUsd)%js;
       market_cap := near_usd_market_cap data;
       volume_24h := near_usd_24h_vol data;
       price_change_24h := near_usd_24h_change data;
       enrichment := e |} in
  match coinData with
  | Some cd =>
      match market_data cd with
      | Some md =>
          baseData (Some
            {| market_cap_rank := coin_market_cap_rank cd;
               ath := md_ath md;
               ath_change_percentage := md_ath_change_percentage md;
               ath_date := md_ath_date md;
               atl := md_atl md;
               atl_change_percentage := md_atl_change_percentage md;
               price_change_7d := md_price_change_percentage_7d md;
               price_change_30d := md_price_change_percentage_30d md;
               high_24h := md_high_24h md;
               low_24h := md_low_24h md;
               circulating_supply := md_circulating_supply md;
               total_supply := md_total_supply md;
               fully_diluted_valuation := md_fully_diluted_valuation md |})
      | None => baseData None
      end
  | None => baseData None
  end.

(** [Promise.all] of the three provider calls, given how each settled: the
    result is fulfilled when all three are, and rejected as soon as one of
    them is.  The reason kept is that of the first rejected call in the
    order of the array. *)
Definition promise_all3 (A B C : Type) (a : Settled A) (b : Settled B)
    (c : Settled C) : Settled (A * B * C) :=
  match a, b, c with
  | Fulfilled x, Fulfilled y, Fulfilled z => Fulfilled (x, y, z)
  | Rejected r, _, _ => Rejected r
  | _, Rejected r, _ => Rejected r
  | _, _, Rejected r => Rejected r
  end.

(** [fetchAllData], given how [fetchPrices()], [fetchCoinData()] and
    [fetchTickers()] settled.  Both builders read [new Date()]; the two
    readings are taken to be the same instant [now]. *)
Definition fetchAllData (now : Z)
    (fetchPrices : Settled (CoinGeckoPriceResponse num))
    (fetchCoinData : Settled (CoinGeckoCoinResponse num))
    (fetchTickers : Settled (CoinGeckoTickersResponse num))
    : Settled (PriceDocument num * VolumeDocument num) :=
  match promise_all3 fetchPrices fetchCoinData fetchTickers with
  | Fulfilled (priceData, coinData, tickerData) =>
      Fulfilled (transformPriceData now priceData (Some coinData),
                 transformVolumeData now tickerData)
  | Rejected r => Rejected r
  end.
End Transform.

(** [a] is listed before [b] in a descending list: [a] is not below [b]. *)
Definition not_below (num : Type) `{JsNumber num} (a b : ExchangeVolume num)
    : Prop :=
  (volume_usd a <? volume_usd b)%js = false.

(** ** Utilities ([lib/utils.ts], [lib/constants.ts]) *)

Definition MAX_DISPLAY_EXCHANGES : nat := 10.

(** [EXCHANGE_CONFIG.EXCHANGE_COLORS], the pie chart's palette. *)
Definition PIE_COLORS : list string :=
  ["#58a6ff"; "#3fb950"; "#f85149"; "#a371f7"; "#db61a2";
   "#f0883e"; "#8b949e"; "#7ee787"; "#79c0ff"; "#d2a8ff"].

(** [EXCHANGE_COLORS] of the exchange-history route. *)
Definition TREND_COLORS : list string :=
  ["#58a6ff"; "#3fb950"; "#f0883e"; "#a371f7";
   "#f85149"; "#8b949e"; "#79c0ff"; "#7ee787"].

Definition isValidTimeRange (value : string) : bool :=
  includes ["1h"; "24h"; "7d"; "30d"] value.

(** [getTimeRangeStart(range)], with [now] the current time in ms. *)
Definition getTimeRangeStart (now : Z) (range : string) : Z :=
  if String.eqb range "1h" then now - 60 * 60 * 1000
  else if String.eqb range "24h" then now - 24 * 60 * 60 * 1000
  else if String.eqb range "7d" then now - 7 * 24 * 60 * 60 * 1000
  else if String.eqb range "30d" then now - 30 * 24 * 60 * 60 * 1000
  else now - 24 * 60 * 60 * 1000.

(** [arr.map((x, index) => f(x, index))] *)
Fixpoint mapi_from (A B : Type) (f : A -> nat -> B) (i : nat) (l : list A)
    : list B :=
  match l with
  | [] => []
  | x :: rest => f x i :: mapi_from f (S i) rest
  end.

Definition mapi (A B : Type) (f : A -> nat -> B) (l : list A) : list B :=
  mapi_from f 0 l.

Section Percentage.
Context {num : Type} `{JsNumber num}.

Definition calculatePercentage (value total : num) : num :=
  if (total === num_zero)%js then num_zero
  else (value / total * num_hundred)%js.
End Percentage.

Section Grouping.
Context {num : Type} `{JsNumber num}.

(** [getTopN(items, n, getValue)], for an integer [n]; the copy
    [[...items]] is the list itself. *)
Definition getTopN (A : Type) (items : list A) (n : Z) (getValue : A -> num)
    : list A :=
  slice_to (js_sort (fun a b => (getValue b - getValue a)%js) items) n.

(** [groupAndSum(items, getKey, getValue)] *)
Definition groupAndSum (A : Type) (items : list A) (getKey : A -> string)
    (getValue : A -> num) : JsMap.t num :=
  fold_left
    (fun result item =>
       let key := getKey item in
       let value := getValue item in
       JsMap.set result key (or_zero (JsMap.get result key) + value)%js)
    items (JsMap.empty num).

(** The running sum of a key: a sum so far that is falsy ([0], [-0] or
    [NaN]) is replaced by 0 before the next value is added. *)
Definition add_to_group (A : Type) (getValue : A -> num) (sum : num)
    (item : A) : num :=
  (or_zero (Some sum) + getValue item)%js.
End Grouping.

(** [s.replace(pattern, '')] for a string [pattern]: the first occurrence
    of [pattern] is removed. *)
Fixpoint remove_first (pattern s : string) : string :=
  if String.prefix pattern s
  then String.substring (String.length pattern)
         (String.length s - String.length pattern) s
  else match s with
       | EmptyString => EmptyString
       | String c rest => String c (remove_first pattern rest)
       end.

(** [validateCronSecret(authHeader)]; [CRON_SECRET] is
    [process.env.CRON_SECRET].  A missing value and the empty string are
    both falsy. *)
Definition validateCronSecret (CRON_SECRET authHeader : option string)
    : bool :=
  match authHeader with
  | None | Some "" => false
  | Some header =>
      let token := remove_first "Bearer " header in
      match CRON_SECRET with
      | None | Some "" => false
      | Some expectedSecret => String.eqb token expectedSecret
      end
  end.

(** ** The volumes collection *)

(** The collection holds the documents in insertion order.  A sorted query
    keeps documents of equal timestamp in that order. *)
Section Store.
Context {num : Type}.

Definition Collection : Type := list (VolumeDocument num).

(** Is [d] placed after [e] by the sort ([1]: ascending, [-1]:
    descending)? *)
Definition sorts_after (ascending : bool) (d e : VolumeDocument num)
    : bool :=
  if ascending then (timestamp e <? timestamp d)%Z
  else (timestamp d <? timestamp e)%Z.

(** [d] may stand before [e] in the result of the sort. *)
Definition sorts_before (ascending : bool) (d e : VolumeDocument num) : Prop :=
  if ascending then (timestamp d <= timestamp e)%Z
  else (timestamp e <= timestamp d)%Z.

Fixpoint sort_doc_insert (ascending : bool) (d : VolumeDocument num)
    (sorted : list (VolumeDocument num)) : list (VolumeDocument num) :=
  match sorted with
  | [] => [d]
  | e :: rest =>
      if sorts_after ascending d e
      then e :: sort_doc_insert ascending d rest
      else d :: e :: rest
  end.

(** [cursor.sort({ timestamp: 1 })] or [{ timestamp: -1 }] *)
Definition sort_by_timestamp (ascending : bool)
    (l : list (VolumeDocument num)) : list (VolumeDocument num) :=
  fold_right (sort_doc_insert ascending) [] l.

(** [collection.find({ timestamp: { $gte: start } })] *)
Definition find_since (start : Z) (c : Collection)
    : list (VolumeDocument num) :=
  filter (fun d => (start <=? timestamp d)%Z) c.

(** [collection.findOne(filter, { sort })] *)
Definition findOne (matching : list (VolumeDocument num))
    (ascending : bool) : option (VolumeDocument num) :=
  hd_error (sort_by_timestamp ascending matching).

(** Two snapshots taken at least one second apart. *)
Definition a_second_apart (d e : VolumeDocument num) : Prop :=
  (1000 <= Z.abs (timestamp d - timestamp e))%Z.
End Store.

(** ** Query layer *)

Record ExchangePieData (num : Type) : Type := {
  pie_name : string;
  pie_value : num;
  percentage : num;
  pie_color : option string
}.

Record VolumesApiResponse (num : Type) : Type := {
  resp_total_volume_usd : num;
  resp_total_volume_near : num;
  volume_change_24h : num;
  resp_exchange_count : nat;
  resp_exchanges : list (ExchangeVolume num);
  distribution : list (ExchangePieData num);
  resp_lastUpdated : Z
}.

Record Point (num : Type) : Type := {
  time : Z;
  value : num
}.

Record ExchangeTimeSeries (num : Type) : Type := {
  series_name : string;
  series_color : option string;
  series_data : list (Point num)
}.

Record ExchangeVolumeHistoryResponse (num : Type) : Type := {
  history_exchanges : list (ExchangeTimeSeries num);
  timestamps : list Z;
  history_lastUpdated : Z
}.

(** What a route answers: [200] with data, [400] or [404] with a message. *)
Inductive ApiResponse (A : Type) : Type :=
| Success (data : A)
| BadRequest (error : string)
| NotFound (error : string).
Arguments BadRequest {A} error.
Arguments NotFound {A} error.

Section Routes.
Context {num : Type} `{JsNumber num}.

(** *** [GET /api/volumes] *)

(** [volumeChange24h], from the latest document and the oldest one of the
    last 24 hours. *)
Definition volumeChange24h (latestVolume : VolumeDocument num)
    (oldestVolume : option (VolumeDocument num)) : num :=
  match oldestVolume with
  | Some oldest =>
      if truthy (total_volume_usd oldest) then
        let oldVolume := total_volume_usd oldest in
        let newVolume := total_volume_usd latestVolume in
        ((newVolume - oldVolume) / oldVolume * num_hundred)%js
      else num_zero
  | None => num_zero
  end.

(** The pie chart's buckets. *)
Definition build_distribution (latestVolume : VolumeDocument num)
    : list (ExchangePieData num) :=
  let top :=
    mapi (fun exchange index =>
            {| pie_name := name exchange;
               pie_value := volume_usd exchange;
               percentage :=
                 calculatePercentage (volume_usd exchange)
                   (total_volume_usd latestVolume);
               pie_color := nth_error PIE_COLORS index |})
         (slice_to (exchanges latestVolume)
                   (Z.of_nat MAX_DISPLAY_EXCHANGES)) in
  if (MAX_DISPLAY_EXCHANGES <? List.length (exchanges latestVolume))%nat then
    let othersVolume :=
      reduce_sum (@volume_usd num)
        (slice_from MAX_DISPLAY_EXCHANGES (exchanges latestVolume)) in
    top ++ [ {| pie_name := "Others";
                pie_value := othersVolume;
                percentage :=
                  calculatePercentage othersVolume
                    (total_volume_usd latestVolume);
                pie_color := Some "#484f58" |} ]
  else top.

Definition GET_volumes (now : Z) (volumesCollection : @Collection num)
    : ApiResponse (VolumesApiResponse num) :=
  match findOne volumesCollection false with
  | None => NotFound "No volume data available"
  | Some latestVolume =>
      let twentyFourHoursAgo := (now - 24 * 60 * 60 * 1000)%Z in
      let oldestVolume :=
        findOne (find_since twentyFourHoursAgo volumesCollection) true in
      Success
        {| resp_total_volume_usd := total_volume_usd latestVolume;
           resp_total_volume_near := total_volume_near latestVolume;
           volume_change_24h := volumeChange24h latestVolume oldestVolume;
           resp_exchange_count := exchange_count latestVolume;
           resp_exchanges := exchanges latestVolume;
           distribution := build_distribution latestVolume;
           resp_lastUpdated := timestamp latestVolume |}
  end.

(** *** [GET /api/volumes/history/exchanges] *)

(** The first loop: each exchange's volume summed over the documents. *)
Definition add_exchange_total (exchangeTotals : JsMap.t num)
    (exchange : ExchangeVolume num) : JsMap.t num :=
  let current := or_zero (JsMap.get exchangeTotals (name exchange)) in
  JsMap.set exchangeTotals (name exchange)
    (current + volume_usd exchange)%js.

Definition exchange_totals (historicalVolumes : list (VolumeDocument num))
    : JsMap.t num :=
  fold_left
    (fun totals doc => fold_left add_exchange_total (exchanges doc) totals)
    historicalVolumes (JsMap.empty num).

(** [(a, b) => b[1] - a[1]] *)
Definition by_total_desc (a b : string * num) : num :=
  (snd b - snd a)%js.

(** [limit] is [Math.min(parseInt(...), 8)], [None] standing for [NaN];
    [slice(0, NaN)] is empty. *)
Definition top_exchanges (limit : option Z)
    (historicalVolumes : list (VolumeDocument num)) : list string :=
  let ranked :=
    js_sort by_total_desc
      (JsMap.entries (exchange_totals historicalVolumes)) in
  map fst (slice_to ranked (match limit with Some n => n | None => 0%Z end)).

(** [Math.floor(doc.timestamp.getTime() / 1000)] *)
Definition unix_seconds (doc : VolumeDocument num) : Z :=
  (timestamp doc / 1000)%Z.

(** The map of one document's exchange volumes. *)
Definition volume_map (doc : VolumeDocument num) : JsMap.t num :=
  fold_left
    (fun volumeMap exchange =>
       JsMap.set volumeMap (name exchange) (volume_usd exchange))
    (exchanges doc) (JsMap.empty num).

(** The point of exchange [name] at snapshot [doc]. *)
Definition point_of (name : string) (doc : VolumeDocument num) : Point num :=
  {| time := unix_seconds doc;
     value := or_zero (JsMap.get (volume_map doc) name) |}.

(** [exchangeData.get(name)!.push(point)] *)
Definition push_point (exchangeData : JsMap.t (list (Point num)))
    (name : string) (p : Point num) : JsMap.t (list (Point num)) :=
  match JsMap.get exchangeData name with
  | Some data => JsMap.set exchangeData name (data ++ [p])
  | None => exchangeData
  end.

(** The second loop: one document appended to [timestamps] and to every
    top exchange's series. *)
Definition process_document (topExchanges : list string)
    (acc : list Z * JsMap.t (list (Point num)))
    (doc : VolumeDocument num) : list Z * JsMap.t (list (Point num)) :=
  let '(timestamps, exchangeData) := acc in
  let time := unix_seconds doc in
  let volumeMap := volume_map doc in
  (timestamps ++ [time],
   fold_left
     (fun data name =>
        push_point data name
          {| time := time; value := or_zero (JsMap.get volumeMap name) |})
     topExchanges exchangeData).

Definition build_series (topExchanges : list string)
    (historicalVolumes : list (VolumeDocument num))
    : list Z * JsMap.t (list (Point num)) :=
  fold_left (process_document topExchanges) historicalVolumes
    ([], fold_left (fun data name => JsMap.set data name [])
           topExchanges (JsMap.empty _)).

(** [range] is [searchParams.get('range') || '24h']; [parsedLimit] is
    [parseInt(searchParams.get('limit') || '5')], [None] for [NaN]. *)
Definition GET_exchange_history (now : Z) (range : string)
    (parsedLimit : option Z) (volumesCollection : @Collection num)
    : ApiResponse (ExchangeVolumeHistoryResponse num) :=
  let limit := option_map (fun n => Z.min n 8) parsedLimit in
  if negb (isValidTimeRange range) then
    BadRequest "Invalid time range. Use: 1h, 24h, 7d, or 30d"
  else
    let startDate := getTimeRangeStart now range in
    let historicalVolumes :=
      sort_by_timestamp true (find_since startDate volumesCollection) in
    match last (map Some historicalVolumes) None with
    | None => NotFound "No volume history available"
    | Some lastDoc =>
        let topExchanges := top_exchanges limit historicalVolumes in
        let '(timestamps, exchangeData) :=
          build_series topExchanges historicalVolumes in
        Success
          {| history_exchanges :=
               mapi (fun name index =>
                       {| series_name := name;
                          series_color := nth_error TREND_COLORS index;
                          series_data :=
                            match JsMap.get exchangeData name with
                            | Some data => data
                            | None => []
                            end |})
                    topExchanges;
             timestamps := unique timestamps;
             history_lastUpdated := timestamp lastDoc |}
    end.
End Routes.

(** ** [GET /api/volumes/history] *)

Record VolumeHistoryResponse (num : Type) : Type := {
  historical : list (Point num);
  volume_history_lastUpdated : Z
}.

Section VolumeHistory.
Context {num : Type} `{JsNumber num}.

(** [range] is [searchParams.get('range') || '24h']. *)
Definition GET_volume_history (now : Z) (range : string)
    (volumesCollection : @Collection num)
    : ApiResponse (VolumeHistoryResponse num) :=
  if negb (isValidTimeRange range) then
    BadRequest "Invalid time range. Use: 1h, 24h, 7d, or 30d"
  else
    match findOne volumesCollection false with
    | None => NotFound "No volume data available"
    | Some latestVolume =>
        let startDate := getTimeRangeStart now range in
        let historicalVolumes :=
          sort_by_timestamp true (find_since startDate volumesCollection) in
        Success
          {| historical :=
               map (fun doc =>
                      {| time := unix_seconds doc;
                         value := total_volume_usd doc |})
                   historicalVolumes;
             volume_history_lastUpdated := timestamp latestVolume |}
    end.
End VolumeHistory.

(** ** [POST /api/cron/fetch-data] *)

(** The [api_usage] document of the metadata collection, whose [key] is
    unique. *)
Record MetadataDocument : Type := {
  last_updated : Z;
  api_calls_today : nat;
  api_calls_month : nat;
  last_reset_date : Z
}.

Record Database (num : Type) : Type := {
  pricesCollection : list (PriceDocument num);
  volumesCollection : list (VolumeDocument num);
  metadataCollection : option MetadataDocument
}.

(** What the endpoint answers: [401], [200] with the number of documents
    stored, or [500] with the error's message. *)
Inductive CronResponse : Type :=
| Unauthorized
| Stored (pricesStored volumesStored : nat)
| Failed (error : string).

(** One request to the endpoint: when it arrives, its [authorization]
    header, and how the three provider calls of the run settle. *)
Record CronRequest (num : Type) : Type := {
  arrival : Z;
  authorization : option string;
  prices_call : Settled (CoinGeckoPriceResponse num);
  coin_call : Settled (CoinGeckoCoinResponse num);
  tickers_call : Settled (CoinGeckoTickersResponse num)
}.

(** The UTC day of an instant: [date.toISOString().split('T')[0]] names it,
    two instants having the same text exactly when they have the same day,
    and [new Date(text)] is the day's midnight. *)
Definition utc_day (ms : Z) : Z := (ms / 86400000)%Z.
Definition utc_midnight (ms : Z) : Z := (utc_day ms * 86400000)%Z.

Section Cron.
Context {num : Type} `{JsNumber num}.

(** [{ ...prices, timestamp: new Date() }] *)
Definition stamp_price (now : Z) (prices : PriceDocument num)
    : PriceDocument num :=
  {| price_timestamp := now;
     near_usd := near_usd prices;
     btc_usd := btc_usd prices;
     eth_usd := eth_usd prices;
     near_btc := near_btc prices;
     near_eth := near_eth prices;
     market_cap := market_cap prices;
     volume_24h := volume_24h prices;
     price_change_24h := price_change_24h prices;
     enrichment := enrichment prices |}.

(** [{ ...volumes, timestamp: new Date() }] *)
Definition stamp_volume (now : Z) (volumes : VolumeDocument num)
    : VolumeDocument num :=
  {| timestamp := now;
     total_volume_usd := total_volume_usd volumes;
     total_volume_near := total_volume_near volumes;
     exchange_count := exchange_count volumes;
     exchanges := exchanges volumes |}.

(** The upsert of the usage document: [$set] and [$inc] on the document
    when it exists, and otherwise a new document, on which [$inc] starts
    from nothing and [$setOnInsert] applies. *)
Definition record_usage (now : Z) (metadata : option MetadataDocument)
    : MetadataDocument :=
  match metadata with
  | Some m =>
      {| last_updated := now;
         api_calls_today := api_calls_today m + 3;
         api_calls_month := api_calls_month m + 3;
         last_reset_date := last_reset_date m |}
  | None =>
      {| last_updated := now;
         api_calls_today := 3;
         api_calls_month := 3;
         last_reset_date := utc_midnight now |}
  end.

(** The check that follows: a usage document last reset on another day
    restarts the daily counter. *)
Definition roll_daily_counter (now : Z) (metadata : MetadataDocument)
    : MetadataDocument :=
  if (utc_day (last_reset_date metadata) =? utc_day now)%Z then metadata
  else
    {| last_updated := last_updated metadata;
       api_calls_today := 3;
       api_calls_month := api_calls_month metadata;
       last_reset_date := utc_midnight now |}.

(** [POST], given the environment's secret, the request's [authorization]
    header, and how the three provider calls of [fetchAllData] settle.
    Every [new Date()] of the run reads [now]; the inserts are
    acknowledged. *)
Definition POST_cron (CRON_SECRET authHeader : option string) (now : Z)
    (fetchPrices : Settled (CoinGeckoPriceResponse num))
    (fetchCoinData : Settled (CoinGeckoCoinResponse num))
    (fetchTickers : Settled (CoinGeckoTickersResponse num))
    (db : Database num) : CronResponse * Database num :=
  if negb (validateCronSecret CRON_SECRET authHeader) then (Unauthorized, db)
  else
    match fetchAllData now fetchPrices fetchCoinData fetchTickers with
    | Rejected errorMessage => (Failed errorMessage, db)
    | Fulfilled (prices, volumes) =>
        (Stored 1 1,
         {| pricesCollection :=
              pricesCollection db ++ [stamp_price now prices];
            volumesCollection :=
              volumesCollection db ++ [stamp_volume now volumes];
            metadataCollection :=
              Some (roll_daily_counter now
                      (record_usage now (metadataCollection db))) |})
    end.

(** The database after the endpoint has served one request, and after it
    has served a list of requests one after the other. *)
Definition serve (CRON_SECRET : option string) (db : Database num)
    (request : CronRequest num) : Database num :=
  snd (POST_cron CRON_SECRET (authorization request) (arrival request)
         (prices_call request) (coin_call request) (tickers_call request)
         db).

Definition serve_all (CRON_SECRET : option string)
    (requests : list (CronRequest num)) (db : Database num)
    : Database num :=
  fold_left (serve CRON_SECRET) requests db.

(** The snapshots of the volumes collection taken on the UTC day [day]. *)
Definition snapshots_of_day (day : Z) (volumes : list (VolumeDocument num))
    : list (VolumeDocument num) :=
  filter (fun d => (utc_day (timestamp d) =? day)%Z) volumes.

(** The books agree: as many price snapshots as volume snapshots, and a
    usage document that counts three calls for each. *)
Definition accounted (db : Database num) : Prop :=
  List.length (pricesCollection db) = List.length (volumesCollection db)
  /\ match metadataCollection db with
     | None => pricesCollection db = []
     | Some usage =>
         api_calls_month usage = (3 * List.length (pricesCollection db))%nat
         /\ (3 <= api_calls_today usage <= api_calls_month usage)%nat
     end.

(** The daily counter is in step with the collection: the usage document
    was last reset on the day of its last update, which is the time of the
    latest snapshot, and the daily counter counts three calls for each
    snapshot of that day. *)
Definition in_step (db : Database num) : Prop :=
  match metadataCollection db with
  | None => volumesCollection db = []
  | Some usage =>
      utc_day (last_reset_date usage) = utc_day (last_updated usage)
      /\ api_calls_today usage
         = (3 * List.length
                  (snapshots_of_day (utc_day (last_updated usage))
                     (volumesCollection db)))%nat
      /\ (exists d, In d (volumesCollection db)
                    /\ timestamp d = last_updated usage)
      /\ Forall (fun d => (timestamp d <= last_updated usage)%Z)
           (volumesCollection db)
  end.

(** No update of the usage document is later than [now]. *)
Definition not_after (now : Z) (db : Database num) : Prop :=
  match metadataCollection db with
  | None => True
  | Some usage => (last_updated usage <= now)%Z
  end.

(** [d] is the snapshot of an authorised request of the list, all three
    calls of which were fulfilled: the transform of its tickers, taken at
    its arrival. *)
Definition stored_by (CRON_SECRET : option string)
    (requests : list (CronRequest num)) (d : VolumeDocument num) : Prop :=
  exists request priceData coinData tickerData,
    In request requests
    /\ validateCronSecret CRON_SECRET (authorization request) = true
    /\ prices_call request = Fulfilled priceData
    /\ coin_call request = Fulfilled coinData
    /\ tickers_call request = Fulfilled tickerData
    /\ d = transformVolumeData (arrival request) tickerData.
End Cron.

Definition empty_database (num : Type) : Database num :=
  {| pricesCollection := []; volumesCollection := [];
     metadataCollection := None |}.

(** ** Rate-limited fetch client ([lib/coingecko.ts]) *)


Definition CALLS_PER_MINUTE : nat := 25.
Definition RESET_INTERVAL : Z := 60 * 1000.

(** The module's two variables, with the clock [Date.now()] reads. *)
Record Process : Type := {
  clock : Z;
  callCount : nat;
  lastResetTime : Z
}.

(** [checkRateLimit()]: the answer and the state it leaves. *)
Definition checkRateLimit (p : Process) : bool * Process :=
  let now := clock p in
  let p1 :=
    if (RESET_INTERVAL <? now - lastResetTime p)%Z
    then {| clock := now; callCount := 0; lastResetTime := now |}
    else p in
  if (CALLS_PER_MINUTE <=? callCount p1)%nat then (false, p1)
  else (true, {| clock := clock p1;
                 callCount := S (callCount p1);
                 lastResetTime := lastResetTime p1 |}).

(** [waitForRateLimit()]: the timer of [timeUntilReset + 100] ms is taken to
    fire on time, and nothing else to run on this path meanwhile. *)
Definition waitForRateLimit (p : Process) : Process :=
  let now := clock p in
  let timeUntilReset := (RESET_INTERVAL - (now - lastResetTime p))%Z in
  if (0 <? timeUntilReset)%Z then
    let woken := (now + (timeUntilReset + 100))%Z in
    {| clock := woken; callCount := 0; lastResetTime := woken |}
  else p.

(** What the provider answers to one request, and after how long. *)
Record HttpResponse (A : Type) : Type := {
  status : Z;
  statusText : string;
  latency : Z;
  body : A
}.

(** [response.ok] *)
Definition response_ok (A : Type) (r : HttpResponse A) : bool :=
  (200 <=? status r)%Z && (status r <=? 299)%Z.

Definition api_error (A : Type) (r : HttpResponse A) : string :=
  "CoinGecko API error: "
  ++ NilZero.string_of_int (Z.to_int (status r)) ++ " " ++ statusText r.

Definition elapse (ms : Z) (p : Process) : Process :=
  {| clock := clock p + ms;
     callCount := callCount p;
     lastResetTime := lastResetTime p |}.

(** [fetchFromCoinGecko(endpoint)].  [network] lists the provider's answers
    to the successive requests; each attempt consumes one, so the recursion
    on a [429] is structural.  [None]: the provider answered [429] to every
    request of the list. *)
Fixpoint fetchFromCoinGecko (A : Type) (network : list (HttpResponse A))
    (p : Process) : option (Settled A * Process) :=
  let '(allowed, p1) := checkRateLimit p in
  let p2 := if allowed then p1 else waitForRateLimit p1 in
  match network with
  | [] => None
  | response :: later =>
      let p3 := elapse (latency response) p2 in
      if response_ok response then Some (Fulfilled (body response), p3)
      else if (status response =? 429)%Z
           then fetchFromCoinGecko later (waitForRateLimit p3)
           else Some (Rejected (api_error response), p3)
  end.

(** [getApiCallCount()] *)
Definition getApiCallCount (p : Process) : nat := callCount p.

(** [resetApiCallCount()] *)
Definition resetApiCallCount (p : Process) : Process :=
  {| clock := clock p; callCount := 0; lastResetTime := clock p |}.

(** ** Sample inputs *)

(** Inputs over binary64 on which the programs are run below. *)
Definition sample_prices (btc : float) : CoinGeckoPriceResponse float :=
  {| near_price := 2.5%float;
     near_usd_market_cap := Some 3000000000%float;
     near_usd_24h_vol := Some 150000000%float;
     near_usd_24h_change := Some (-1.5)%float;
     bitcoin_price := btc;
     ethereum_price := 2500%float |}.

Definition sample_market_data : MarketData float :=
  {| md_ath := Some 20.5%float;
     md_ath_change_percentage := Some (-87.5)%float;
     md_ath_date := Some "2022-01-16T22:09:45.873Z";
     md_atl := Some 0.5%float;
     md_atl_change_percentage := Some 400%float;
     md_high_24h := Some 2.75%float;
     md_low_24h := Some 2.25%float;
     md_price_change_percentage_7d := Some 3.5%float;
     md_price_change_percentage_30d := Some (-12)%float;
     md_circulating_supply := Some 1200000000%float;
     md_total_supply := Some 1250000000%float;
     md_fully_diluted_valuation := Some 3125000000%float |}.

Definition sample_coin : CoinGeckoCoinResponse float :=
  {| coin_market_cap_rank := Some 30%float;
     market_data := Some sample_market_data |}.

Definition sample_coin_bare : CoinGeckoCoinResponse float :=
  {| coin_market_cap_rank := Some 30%float; market_data := None |}.

(** A ticker of the pair NEAR/[quote] on [exchange], with the same figure
    for both volumes. *)
Definition sample_ticker (exchange quote : string) (vol : float)
    (trust : option string) (flagged : bool) : CoinGeckoTicker float :=
  {| base := "NEAR";
     target := quote;
     market_name := exchange;
     volume := vol;
     converted_volume_usd := vol;
     ticker_trust_score := trust;
     is_anomaly := flagged;
     is_stale := false;
     ticker_trade_url := None |}.

Definition sample_response (l : list (CoinGeckoTicker float))
    : CoinGeckoTickersResponse float :=
  {| coin_name := "NEAR Protocol"; tickers := l |}.

Definition float_of_nat (n : nat) : float :=
  PrimFloat.of_uint63 (Uint63.of_Z (Z.of_nat n)).

Definition exchange_numbered (n : nat) : string :=
  "Exchange " ++ NilZero.string_of_uint (Nat.to_uint n).

(** [n] exchanges, one ticker each; exchange number [k] trades [vol k]. *)
Definition numbered_exchanges (n : nat) (vol : nat -> float)
    : CoinGeckoTickersResponse float :=
  sample_response
    (map (fun k =>
            sample_ticker (exchange_numbered k) "USDT" (vol k)
              (Some "green") false)
         (seq 1 n)).

(** A snapshot taken at [ts] of one exchange trading [vol]. *)
Definition snapshot_of (ts : Z) (vol : float) : VolumeDocument float :=
  transformVolumeData ts
    (sample_response
       [sample_ticker "Binance" "USDT" vol (Some "green") false]).

(** Scenario C: a snapshot 23 hours old worth 4 and one 10 minutes old
    worth 5. *)
Definition scenario_C (now : Z) : @Collection float :=
  [ snapshot_of (now - 23 * 60 * 60 * 1000) 4%float;
    snapshot_of (now - 10 * 60 * 1000) 5%float ].

(** The same, the older snapshot being worth nothing. *)
Definition scenario_C_from_zero (now : Z) : @Collection float :=
  [ snapshot_of (now - 23 * 60 * 60 * 1000) 0%float;
    snapshot_of (now - 10 * 60 * 1000) 5%float ].

(** Two exchanges over exact rationals, trading 1 and 3. *)
Definition exact_ticker (exchange : string) (vol : Qc) : CoinGeckoTicker Qc :=
  {| base := "NEAR";
     target := "USDT";
     market_name := exchange;
     volume := vol;
     converted_volume_usd := vol;
     ticker_trust_score := None;
     is_anomaly := false;
     is_stale := false;
     ticker_trade_url := None |}.

Definition exact_sample : CoinGeckoTickersResponse Qc :=
  {| coin_name := "NEAR Protocol";
     tickers := [ exact_ticker "Binance" (Q2Qc (1 # 1));
                  exact_ticker "OKX" (Q2Qc (3 # 1)) ] |}.

(** A snapshot taken at [ts] of the listed exchanges and volumes. *)
Definition snapshot_at (ts : Z) (l : list (string * float))
    : VolumeDocument float :=
  transformVolumeData ts
    (sample_response
       (map (fun '(exchange, vol) =>
               sample_ticker exchange "USDT" vol (Some "green") false) l)).

Definition sample_now : Z := 1700000000000.

(** A collection of four snapshots, inserted out of order: one 3 hours
    old (Binance 10, OKX 5), two within the same second 2 hours ago (Binance
    12 alone, then OKX 7 and Binance 1), and one 31 days old. *)
Definition sample_history : @Collection float :=
  [ snapshot_at (sample_now - 2 * 60 * 60 * 1000 + 400)
      [("OKX", 7%float); ("Binance", 1%float)];
    snapshot_at (sample_now - 31 * 24 * 60 * 60 * 1000)
      [("Binance", 99%float)];
    snapshot_at (sample_now - 3 * 60 * 60 * 1000)
      [("Binance", 10%float); ("OKX", 5%float)];
    snapshot_at (sample_now - 2 * 60 * 60 * 1000)
      [("Binance", 12%float)] ].

(** A request arriving at [at_time] with the header [header], all three
    provider calls of which succeed. *)
Definition sample_request (at_time : Z) (header : string)
    : CronRequest float :=
  {| arrival := at_time;
     authorization := Some header;
     prices_call := Fulfilled (sample_prices 40000%float);
     coin_call := Fulfilled sample_coin;
     tickers_call :=
       Fulfilled
         (sample_response
            [sample_ticker "Binance" "USDT" 5%float (Some "green") false]) |}.

(** Four requests: one late on a day, one with a wrong token a quarter of
    an hour later, and two after midnight. *)
Definition sample_requests : list (CronRequest float) :=
  [ sample_request sample_now "Bearer s3cret";
    sample_request (sample_now + 15 * 60 * 1000) "Bearer guess";
    sample_request (sample_now + 2 * 60 * 60 * 1000) "Bearer s3cret";
    sample_request (sample_now + 135 * 60 * 1000) "Bearer s3cret" ].

(** Scenario A: exchange X stores the volume of its ticker that is not
    anomalous. *)
Definition scenario_A_tickers : CoinGeckoTickersResponse float :=
  sample_response
    [ sample_ticker "X" "USDT" 7%float (Some "green") false;
      sample_ticker "X" "USDC" 1000%float (Some "green") true;
      sample_ticker "Y" "USDT" 3%float (Some "yellow") false;
      sample_ticker "X" "USDT" 2%float (Some "red") false ].

Definition scenario_A_bucket : ExchangeVolume float :=
  {| name := "X";
     volume_usd := 9%float;
     volume_near := 9%float;
     trading_pairs := ["NEAR/USDT"];
     trust_score := Some "green";
     trade_url := None |}.

(** * Properties *)

(** ** The rate-limited fetch client *)

Lemma checkRateLimit_saturated (p : Process) :
  (CALLS_PER_MINUTE <= callCount p)%nat ->
  (clock p - lastResetTime p <= RESET_INTERVAL)%Z ->
  checkRateLimit p = (false, p).
Proof.
  intros Hc Hw. unfold checkRateLimit.
  replace (RESET_INTERVAL <? clock p - lastResetTime p)%Z with false
    by (symmetry; apply Z.ltb_ge; exact Hw).
  replace (CALLS_PER_MINUTE <=? callCount p)%nat with true
    by (symmetry; apply Nat.leb_le; exact Hc).
  reflexivity.
Qed.

Lemma checkRateLimit_counts (p : Process) :
  (callCount p < CALLS_PER_MINUTE)%nat ->
  (clock p - lastResetTime p <= RESET_INTERVAL)%Z ->
  checkRateLimit p
  = (true, {| clock := clock p;
              callCount := S (callCount p);
              lastResetTime := lastResetTime p |}).
Proof.
  intros Hc Hw. unfold checkRateLimit.
  replace (RESET_INTERVAL <? clock p - lastResetTime p)%Z with false
    by (symmetry; apply Z.ltb_ge; exact Hw).
  replace (CALLS_PER_MINUTE <=? callCount p)%nat with false
    by (symmetry; apply Nat.leb_gt; exact Hc).
  reflexivity.
Qed.

Lemma checkRateLimit_expired (p : Process) :
  (RESET_INTERVAL < clock p - lastResetTime p)%Z ->
  checkRateLimit p
  = (true, {| clock := clock p;
              callCount := 1;
              lastResetTime := clock p |}).
Proof.
  intro Hw. unfold checkRateLimit.
  replace (RESET_INTERVAL <? clock p - lastResetTime p)%Z with true
    by (symmetry; apply Z.ltb_lt; exact Hw).
  reflexivity.
Qed.

Lemma waitForRateLimit_resets (p : Process) :
  (clock p - lastResetTime p < RESET_INTERVAL)%Z ->
  callCount (waitForRateLimit p) = 0%nat.
Proof.
  intro Hw. unfold waitForRateLimit.
  replace (0 <? RESET_INTERVAL - (clock p - lastResetTime p))%Z with true
    by (symmetry; apply Z.ltb_lt; lia).
  reflexivity.
Qed.

(** A call that goes through at once is counted once; so is the first call
    of a new window, which restarts the count. *)
Lemma immediate_call_is_counted (A : Type) (response : HttpResponse A)
    (later : list (HttpResponse A)) (p : Process) :
  (callCount p < CALLS_PER_MINUTE)%nat ->
  (clock p - lastResetTime p <= RESET_INTERVAL)%Z ->
  response_ok response = true ->
  exists p',
    fetchFromCoinGecko (response :: later) p
    = Some (Fulfilled (body response), p')
    /\ callCount p' = S (callCount p).
Proof.
  intros Hc Hw Hok. cbn [fetchFromCoinGecko].
  rewrite checkRateLimit_counts by assumption.
  rewrite Hok. eexists; split; reflexivity.
Qed.

Lemma first_call_of_window_is_counted (A : Type) (response : HttpResponse A)
    (later : list (HttpResponse A)) (p : Process) :
  (RESET_INTERVAL < clock p - lastResetTime p)%Z ->
  response_ok response = true ->
  exists p',
    fetchFromCoinGecko (response :: later) p
    = Some (Fulfilled (body response), p')
    /\ callCount p' = 1%nat.
Proof.
  intros Hw Hok. cbn [fetchFromCoinGecko].
  rewrite checkRateLimit_expired by assumption.
  rewrite Hok. eexists; split; reflexivity.
Qed.

(** A request answered [429] waits for the window to end and is sent again
    through the entry point, which counts the retry: the counter reads 1 after
    a retry that succeeds. *)
Lemma retried_call_is_counted (A : Type) (throttled response : HttpResponse A)
    (later : list (HttpResponse A)) (p : Process) :
  (callCount p < CALLS_PER_MINUTE)%nat ->
  (clock p - lastResetTime p <= RESET_INTERVAL)%Z ->
  (clock p + latency throttled - lastResetTime p < RESET_INTERVAL)%Z ->
  status throttled = 429%Z ->
  response_ok response = true ->
  exists p',
    fetchFromCoinGecko (throttled :: response :: later) p
    = Some (Fulfilled (body response), p')
    /\ callCount p' = 1%nat.
Proof.
  intros Hc Hw Hl H429 Hok. cbn [fetchFromCoinGecko].
  rewrite checkRateLimit_counts by assumption.
  unfold response_ok at 1. rewrite H429. cbn [Z.leb Z.eqb andb].
  change ((200 <=? 429)%Z && (429 <=? 299)%Z) with false. cbv iota.
  change (429 =? 429)%Z with true. cbv iota.
  set (q := waitForRateLimit _).
  assert (Hq : callCount q = 0%nat /\ lastResetTime q = clock q).
  { unfold q, waitForRateLimit, elapse. cbn [clock lastResetTime callCount].
    replace (0 <? RESET_INTERVAL
                  - (clock p + latency throttled - lastResetTime p))%Z
      with true by (symmetry; apply Z.ltb_lt; lia).
    split; reflexivity. }
  destruct Hq as [Hq0 Hq1].
  rewrite checkRateLimit_counts
    by (rewrite ?Hq0, ?Hq1; unfold CALLS_PER_MINUTE, RESET_INTERVAL; lia).
  rewrite Hok. eexists. split; [reflexivity|]. cbn. now rewrite Hq0.
Qed.

(** C8, as the code runs: a call made while the counter is saturated waits
    for the window to end, resets the counter to zero and then issues its
    request without counting it, so the counter reads 0 and not 1 after the
    call. *)
Theorem call_after_wait_is_not_counted (A : Type) (response : HttpResponse A)
    (later : list (HttpResponse A)) (p : Process) :
  (CALLS_PER_MINUTE <= callCount p)%nat ->
  (clock p - lastResetTime p < RESET_INTERVAL)%Z ->
  response_ok response = true ->
  exists p',
    fetchFromCoinGecko (response :: later) p
    = Some (Fulfilled (body response), p')
    /\ callCount p' = 0%nat.
Proof.
  intros Hc Hw Hok. cbn [fetchFromCoinGecko].
  rewrite checkRateLimit_saturated by (trivial; lia).
  rewrite Hok. eexists; split; [reflexivity|].
  cbn. now apply waitForRateLimit_resets.
Qed.

(** The 26th call of a window, 1 second into it, answered [200 OK]. *)
Lemma call_after_wait_is_not_counted_witness :
  exists p',
    fetchFromCoinGecko
      [ {| status := 200; statusText := "OK"; latency := 10; body := tt |} ]
      {| clock := 1000; callCount := 25; lastResetTime := 0 |}
    = Some (Fulfilled tt, p')
    /\ callCount p' = 0%nat.
Proof.
  apply (call_after_wait_is_not_counted
           {| status := 200; statusText := "OK"; latency := 10; body := tt |}
           [] {| clock := 1000; callCount := 25; lastResetTime := 0 |});
    [ vm_compute; lia | reflexivity | reflexivity ].
Defined.

(** ** Percentages of a zero total *)

Lemma Forall_mapi_from (A B : Type) (P : B -> Prop) (f : A -> nat -> B)
    (l : list A) :
  (forall x i, P (f x i)) -> forall i, Forall P (mapi_from f i l).
Proof.
  intro Hf. induction l as [|x rest IH]; intro i; cbn; constructor; auto.
Qed.

Lemma calculatePercentage_zero_total (num : Type) `{JsNumber num}
    (v total : num) :
  (total === num_zero)%js = true -> calculatePercentage v total = num_zero.
Proof. intro E. unfold calculatePercentage. now rewrite E. Qed.

(** C10: [calculatePercentage(v, 0)] is [0] for every [v], and when a
    snapshot's [total_volume_usd] is zero every bucket of the distribution
    built from it has percentage [0]. *)
Theorem percentage_of_zero_total :
  (forall v : float, calculatePercentage v 0%float = 0%float)
  /\ (forall doc : VolumeDocument float,
        (total_volume_usd doc =? 0)%float = true ->
        Forall (fun bucket => percentage bucket = 0%float)
               (build_distribution doc)).
Proof.
  split.
  - intro v. now apply (@calculatePercentage_zero_total float float_number).
  - intros doc E. unfold build_distribution.
    assert (Htop : forall l i,
               Forall (fun bucket => percentage bucket = 0%float)
                 (mapi_from
                    (fun (exchange : ExchangeVolume float) index =>
                       {| pie_name := name exchange;
                          pie_value := volume_usd exchange;
                          percentage :=
                            calculatePercentage (volume_usd exchange)
                              (total_volume_usd doc);
                          pie_color := nth_error PIE_COLORS index |}) i l)).
    { intros l i. apply Forall_mapi_from. intros x j. cbn.
      now apply (@calculatePercentage_zero_total float float_number). }
    destruct (_ <? _)%nat.
    + apply Forall_app. split; [apply Htop|].
      constructor; [|constructor]. cbn.
      now apply (@calculatePercentage_zero_total float float_number).
    + apply Htop.
Qed.

(** ** Cross-rates and enrichment *)

Lemma eqb_zero_inv (y : float) :
  (y =? 0)%float = true -> exists s, Prim2SF y = S754_zero s.
Proof.
  rewrite FloatAxioms.eqb_spec. change (Prim2SF 0) with (S754_zero false).
  destruct (Prim2SF y) as [s| s | | s m e]; intro E; try (now exists s);
    try destruct s; discriminate.
Qed.

(** Dividing by a zero never gives a finite number. *)
Lemma div_by_zero (x y : float) :
  (y =? 0)%float = true ->
  (x / y)%float = infinity \/ (x / y)%float = neg_infinity
  \/ (x / y)%float = nan.
Proof.
  intro E. destruct (eqb_zero_inv E) as [s Hs].
  rewrite <- (SF2Prim_Prim2SF (x / y)%float), FloatAxioms.div_spec, Hs.
  unfold SF64div, SFdiv.
  destruct (Prim2SF x) as [sx | sx | | sx m e]; try destruct sx; destruct s;
    cbn; auto.
Qed.

(** C2, refuted: with [bitcoin.usd = 0] the three calls being fulfilled,
    [fetchAllData] is fulfilled too, and the price snapshot it returns
    carries [near_btc = Infinity]. *)
Lemma zero_reference_price_is_stored :
  exists prices volumes,
    fetchAllData 1700000000000 (Fulfilled (sample_prices 0%float))
      (Fulfilled sample_coin) (Fulfilled (sample_response []))
    = Fulfilled (prices, volumes)
    /\ btc_usd prices = 0%float
    /\ near_btc prices = infinity.
Proof. do 2 eexists. split; [reflexivity|]. split; reflexivity. Qed.

(** C2, amended: the snapshot builder has no failure path.  Whatever the
    prices, [fetchAllData] is fulfilled when the three calls are, with the
    price snapshot [transformPriceData] builds; its cross-rates are the
    quotients [near_usd / btc_usd] and [near_usd / eth_usd], and for a
    reference price that is zero the quotient stored is [Infinity],
    [-Infinity] or [NaN]. *)
Theorem cross_rate_is_never_refused (now : Z)
    (data : CoinGeckoPriceResponse float)
    (coinData : CoinGeckoCoinResponse float)
    (tickerData : CoinGeckoTickersResponse float) :
  let prices := transformPriceData now data (Some coinData) in
  fetchAllData now (Fulfilled data) (Fulfilled coinData) (Fulfilled tickerData)
  = Fulfilled (prices, transformVolumeData now tickerData)
  /\ near_btc prices = (near_price data / bitcoin_price data)%float
  /\ near_eth prices = (near_price data / ethereum_price data)%float
  /\ ((bitcoin_price data =? 0)%float = true ->
      near_btc prices = infinity \/ near_btc prices = neg_infinity
      \/ near_btc prices = nan)
  /\ ((ethereum_price data =? 0)%float = true ->
      near_eth prices = infinity \/ near_eth prices = neg_infinity
      \/ near_eth prices = nan).
Proof.
  assert (Hbtc : near_btc (transformPriceData now data (Some coinData))
                 = (near_price data / bitcoin_price data)%float)
    by (unfold transformPriceData; destruct (market_data coinData);
        reflexivity).
  assert (Heth : near_eth (transformPriceData now data (Some coinData))
                 = (near_price data / ethereum_price data)%float)
    by (unfold transformPriceData; destruct (market_data coinData);
        reflexivity).
  cbv zeta. repeat split; trivial.
  - intro E. rewrite Hbtc. now apply div_by_zero.
  - intro E. rewrite Heth. now apply div_by_zero.
Qed.

(** A bitcoin price of 0 with a NEAR price of 2.5. *)
Lemma cross_rate_is_never_refused_witness :
  near_btc (transformPriceData 0 (sample_prices 0%float) (Some sample_coin))
  = infinity
  \/ near_btc (transformPriceData 0 (sample_prices 0%float) (Some sample_coin))
     = neg_infinity
  \/ near_btc (transformPriceData 0 (sample_prices 0%float) (Some sample_coin))
     = nan.
Proof.
  apply (cross_rate_is_never_refused 0 (sample_prices 0%float) sample_coin
           (sample_response [])).
  reflexivity.
Defined.




(** The snapshot of a single exchange that trades nothing. *)
Lemma percentage_of_zero_total_witness :
  Forall (fun bucket => percentage bucket = 0%float)
    (build_distribution
       (transformVolumeData 0
          (sample_response
             [sample_ticker "Binance" "USDT" 0%float None false]))).
Proof. apply (proj2 percentage_of_zero_total). reflexivity. Defined.

(** ** Maps in insertion order *)

Section JsMapFacts.
Context {V : Type}.
Implicit Types (m : JsMap.t V) (k : string) (v : V).

Lemma get_none_iff m k : JsMap.get m k = None <-> ~ In k (JsMap.keys m).
Proof.
  induction m as [|[k' v'] rest IH]; cbn.
  - tauto.
  - destruct (String.eqb_spec k' k) as [->|Hne].
    + split; [discriminate | intro Hn; exfalso; apply Hn; now left].
    + rewrite IH. split.
      * intros Hn [E|Hin]; [now apply Hne | now apply Hn].
      * intros Hn Hin. apply Hn. now right.
Qed.

Lemma get_some_in m k v : JsMap.get m k = Some v -> In (k, v) m.
Proof.
  induction m as [|[k' v'] rest IH]; cbn; [discriminate|].
  destruct (String.eqb_spec k' k) as [->|Hne].
  - intros [= ->]. now left.
  - intro E. right. now apply IH.
Qed.

Lemma keys_set m k v :
  JsMap.keys (JsMap.set m k v)
  = match JsMap.get m k with
    | Some _ => JsMap.keys m
    | None => JsMap.keys m ++ [k]
    end.
Proof.
  induction m as [|[k' v'] rest IH]; cbn; [reflexivity|].
  destruct (String.eqb_spec k' k) as [->|Hne]; cbn; [reflexivity|].
  unfold JsMap.keys in IH. rewrite IH.
  now destruct (JsMap.get rest k).
Qed.

Lemma get_set_same m k v : JsMap.get (JsMap.set m k v) k = Some v.
Proof.
  induction m as [|[k' v'] rest IH]; cbn.
  - now rewrite String.eqb_refl.
  - destruct (String.eqb_spec k' k) as [->|Hne]; cbn.
    + now rewrite String.eqb_refl.
    + destruct (String.eqb_spec k' k); [contradiction | exact IH].
Qed.

Lemma get_set_other m k k' v :
  k <> k' -> JsMap.get (JsMap.set m k v) k' = JsMap.get m k'.
Proof.
  intro Hne. induction m as [|[k0 v0] rest IH]; cbn.
  - destruct (String.eqb_spec k k'); [contradiction | reflexivity].
  - destruct (String.eqb_spec k0 k) as [->|Hne0]; cbn.
    + destruct (String.eqb_spec k k'); [contradiction | reflexivity].
    + now rewrite IH.
Qed.

Lemma NoDup_keys_set m k v :
  NoDup (JsMap.keys m) -> NoDup (JsMap.keys (JsMap.set m k v)).
Proof.
  intro Hnd. rewrite keys_set.
  destruct (JsMap.get m k) eqn:E; [exact Hnd|].
  apply get_none_iff in E.
  apply NoDup_app; [exact Hnd | repeat constructor; intros [] | ].
  intros x Hx [<-|[]]. contradiction.
Qed.

Lemma in_keys_set m k v x :
  In x (JsMap.keys (JsMap.set m k v)) <-> In x (JsMap.keys m) \/ x = k.
Proof.
  rewrite keys_set. destruct (JsMap.get m k) eqn:E.
  - split; [now left | intros [Hin | ->]; [exact Hin|]].
    apply get_some_in in E. unfold JsMap.keys.
    change k with (fst (k, v0)). now apply in_map.
  - rewrite in_app_iff. cbn. intuition congruence.
Qed.

Lemma values_length m : List.length (JsMap.values m) = List.length (JsMap.keys m).
Proof. unfold JsMap.values, JsMap.keys. now rewrite !length_map. Qed.
End JsMapFacts.

(** ** Sorting *)

Section SortFacts.
Context {num : Type} `{JsNumber num} {A : Type}.
Variable compareFn : A -> A -> num.

Lemma sort_insert_perm (a : A) (l : list A) :
  Permutation (sort_insert compareFn a l) (a :: l).
Proof.
  induction l as [|b rest IH]; cbn; [reflexivity|].
  destruct (num_zero <? compareFn a b)%js; [|reflexivity].
  rewrite IH. apply perm_swap.
Qed.

Lemma js_sort_perm (l : list A) : Permutation (js_sort compareFn l) l.
Proof.
  induction l as [|a rest IH]; cbn; [reflexivity|].
  fold (js_sort compareFn rest). rewrite sort_insert_perm. now constructor.
Qed.

Lemma js_sort_length (l : list A) :
  List.length (js_sort compareFn l) = List.length l.
Proof. apply Permutation_length, js_sort_perm. Qed.

Lemma js_sort_in (l : list A) (x : A) : In x (js_sort compareFn l) <-> In x l.
Proof.
  split; apply Permutation_in;
    [apply js_sort_perm | apply Permutation_sym, js_sort_perm].
Qed.

(** When the comparator never asks for each of two elements before the
    other, the result is in order. *)
Hypothesis compare_antisym :
  forall a b, (num_zero <? compareFn a b)%js = true -> in_order compareFn b a.

Lemma sort_insert_sorted (a : A) (l : list A) :
  Sorted (in_order compareFn) l -> Sorted (in_order compareFn) (sort_insert compareFn a l).
Proof.
  induction l as [|b rest IH]; intro Hs; cbn.
  - repeat constructor.
  - destruct (num_zero <? compareFn a b)%js eqn:E.
    + inversion Hs as [|? ? Hrest Hhd]; subst.
      constructor; [now apply IH|].
      destruct rest as [|c rest']; cbn.
      * constructor. now apply compare_antisym.
      * destruct (num_zero <? compareFn a c)%js.
        -- inversion Hhd; subst. now constructor.
        -- constructor. now apply compare_antisym.
    + constructor; [exact Hs | now constructor].
Qed.

Lemma js_sort_sorted (l : list A) : Sorted (in_order compareFn) (js_sort compareFn l).
Proof.
  induction l as [|a rest IH]; cbn; [constructor|].
  now apply sort_insert_sorted.
Qed.
End SortFacts.

Lemma Sorted_firstn (A : Type) (R : A -> A -> Prop) (n : nat) (l : list A) :
  Sorted R l -> Sorted R (firstn n l).
Proof.
  revert l. induction n as [|n IH]; intros [|a l] Hs; cbn; try constructor.
  - apply IH. now inversion Hs.
  - inversion Hs as [|? ? _ Hhd]; subst.
    destruct l as [|b l]; destruct n; cbn; constructor.
    now inversion Hhd.
Qed.

Lemma slice_to_firstn (A : Type) (l : list A) (n : nat) :
  slice_to l (Z.of_nat n) = firstn n l.
Proof.
  unfold slice_to.
  destruct (Z.ltb_spec (Z.of_nat n) 0); [lia|]. now rewrite Nat2Z.id.
Qed.

(** ** Aggregation of tickers by exchange *)

Section AggregateFacts.
Context {num : Type} `{JsNumber num}.
Implicit Types (ticker : CoinGeckoTicker num)
  (m : JsMap.t (ExchangeVolume num)).

Lemma aggregate_ticker_skips m ticker :
  counted ticker = false -> aggregate_ticker m ticker = m.
Proof.
  unfold counted, aggregate_ticker. now destruct (_ || _).
Qed.

Lemma fold_aggregate_counted (l : list (CoinGeckoTicker num)) m :
  fold_left aggregate_ticker l m
  = fold_left aggregate_ticker (filter counted l) m.
Proof.
  revert m. induction l as [|ticker rest IH]; intro m; cbn; [reflexivity|].
  destruct (counted ticker) eqn:E; cbn.
  - apply IH.
  - rewrite aggregate_ticker_skips by exact E. apply IH.
Qed.

Lemma in_keys_aggregate_ticker m ticker x :
  In x (JsMap.keys (aggregate_ticker m ticker))
  <-> In x (JsMap.keys m) \/ (counted ticker = true /\ x = market_name ticker).
Proof.
  unfold aggregate_ticker, counted.
  destruct (_ || _); cbn.
  - intuition discriminate.
  - destruct (JsMap.get m (market_name ticker));
      rewrite in_keys_set; intuition.
Qed.

Lemma NoDup_keys_aggregate_ticker m ticker :
  NoDup (JsMap.keys m) -> NoDup (JsMap.keys (aggregate_ticker m ticker)).
Proof.
  intro Hnd. unfold aggregate_ticker.
  destruct (_ || _); [exact Hnd|].
  destruct (JsMap.get m (market_name ticker)); now apply NoDup_keys_set.
Qed.

Lemma set_keyed_by_name m k (v : ExchangeVolume num) :
  keyed_by_name m -> name v = k -> keyed_by_name (JsMap.set m k v).
Proof.
  intros Hm Hv. induction m as [|[k' v'] rest IH]; cbn.
  - repeat constructor. exact Hv.
  - pose proof (Forall_inv Hm) as Hhd. pose proof (Forall_inv_tail Hm) as Htl.
    cbn in Hhd.
    destruct (String.eqb_spec k' k) as [->|Hne].
    + constructor; [exact Hv | exact Htl].
    + constructor; [exact Hhd | now apply IH].
Qed.

Lemma aggregate_ticker_keyed_by_name m ticker :
  keyed_by_name m -> keyed_by_name (aggregate_ticker m ticker).
Proof.
  intro Hm. unfold aggregate_ticker.
  destruct (_ || _); [exact Hm|].
  destruct (JsMap.get m (market_name ticker)) as [existing|] eqn:E.
  - apply set_keyed_by_name; [exact Hm|]. cbn.
    apply get_some_in in E.
    unfold keyed_by_name in Hm. rewrite Forall_forall in Hm.
    exact (Hm _ E).
  - now apply set_keyed_by_name.
Qed.

Lemma fold_aggregate_invariants (l : list (CoinGeckoTicker num)) m :
  NoDup (JsMap.keys m) -> keyed_by_name m ->
  NoDup (JsMap.keys (fold_left aggregate_ticker l m))
  /\ keyed_by_name (fold_left aggregate_ticker l m)
  /\ forall x,
       In x (JsMap.keys (fold_left aggregate_ticker l m))
       <-> In x (JsMap.keys m)
           \/ In x (map (@market_name num) (filter counted l)).
Proof.
  revert m. induction l as [|ticker rest IH]; intros m Hnd Hk; cbn.
  - repeat split; trivial; tauto.
  - destruct (IH (aggregate_ticker m ticker)
                (NoDup_keys_aggregate_ticker m ticker Hnd)
                (aggregate_ticker_keyed_by_name ticker Hk))
      as (Hnd' & Hk' & Hin).
    repeat split; trivial.
    + intro Hx. apply Hin in Hx. rewrite in_keys_aggregate_ticker in Hx.
      destruct Hx as [[Hx|[Hc ->]]|Hx]; [now left| |].
      * right. rewrite Hc. now left.
      * right. destruct (counted ticker); [now right | exact Hx].
    + intro Hx. apply Hin. rewrite in_keys_aggregate_ticker.
      destruct Hx as [Hx|Hx]; [now left; left|].
      destruct (counted ticker) eqn:Hc; [|now right].
      destruct Hx as [<-|Hx]; [left; right; now split | now right].
Qed.

Lemma keyed_by_name_names m :
  keyed_by_name m -> map (@name num) (JsMap.values m) = JsMap.keys m.
Proof.
  unfold JsMap.values, JsMap.keys.
  induction 1 as [|entry rest Hhd _ IH]; cbn; [reflexivity|].
  now rewrite Hhd, IH.
Qed.

(** The buckets are the exchanges with a counted ticker, once each. *)
Lemma aggregate_keys (l : list (CoinGeckoTicker num)) :
  NoDup (JsMap.keys (aggregate l))
  /\ map (@name num) (JsMap.values (aggregate l)) = JsMap.keys (aggregate l)
  /\ forall x, In x (JsMap.keys (aggregate l)) <-> In x (distinct_exchanges l).
Proof.
  destruct (@fold_aggregate_invariants l (JsMap.empty _))
    as (Hnd & Hk & Hin); [constructor | constructor |].
  repeat split; trivial.
  - now apply keyed_by_name_names.
  - intro Hx. apply Hin in Hx. destruct Hx as [[]|Hx].
    unfold distinct_exchanges. now apply nodup_In.
  - intro Hx. apply Hin. right.
    unfold distinct_exchanges in Hx. now apply nodup_In in Hx.
Qed.

Lemma sorted_exchanges_length (l : list (CoinGeckoTicker num)) :
  List.length (sorted_exchanges l) = List.length (distinct_exchanges l).
Proof.
  unfold sorted_exchanges. rewrite js_sort_length, values_length.
  destruct (aggregate_keys l) as (Hnd & _ & Hin).
  apply Permutation_length, NoDup_Permutation; trivial.
  apply NoDup_nodup.
Qed.
End AggregateFacts.

(** ** The volume snapshot *)

Section SnapshotFacts.
Context {num : Type} `{JsNumber num}.

Lemma sorted_exchanges_descending `{!SubtractionOrder num}
    (l : list (CoinGeckoTicker num)) :
  Sorted (@not_below num _) (sorted_exchanges l).
Proof.
  unfold sorted_exchanges.
  assert (Hs : Sorted (in_order by_volume_desc)
                 (js_sort by_volume_desc (JsMap.values (aggregate l)))).
  { apply js_sort_sorted. intros a b. unfold in_order, by_volume_desc.
    rewrite !sub_positive. apply ltb_asym. }
  revert Hs. generalize (js_sort by_volume_desc (JsMap.values (aggregate l))).
  assert (Himp : forall a b : ExchangeVolume num,
             in_order by_volume_desc a b -> not_below a b).
  { intros a b. unfold in_order, by_volume_desc, not_below.
    now rewrite sub_positive. }
  induction 1 as [|a rest _ IH Hhd]; constructor; trivial.
  destruct Hhd; constructor. now apply Himp.
Qed.

Lemma reduce_sum_split (A : Type) (f : A -> num) (n : nat) (l : list A) :
  reduce_sum f l
  = fold_left (fun sum e => (sum + f e)%js) (skipn n l)
      (reduce_sum f (firstn n l)).
Proof.
  unfold reduce_sum. rewrite <- fold_left_app. now rewrite firstn_skipn.
Qed.

Lemma total_of_untruncated (now : Z) (data : CoinGeckoTickersResponse num) :
  (exchange_count (transformVolumeData now data) <= 20)%nat ->
  total_volume_usd (transformVolumeData now data)
  = reduce_sum (@volume_usd num) (exchanges (transformVolumeData now data)).
Proof.
  unfold transformVolumeData.
  cbn [total_volume_usd exchange_count exchanges].
  change 20%Z with (Z.of_nat 20). rewrite slice_to_firstn.
  intro Hcount. now rewrite firstn_all2.
Qed.

(** C1, amended: the totals are the sums over every exchange of the sorted
    list, before truncation.  Each is the sum over the stored top 20
    continued over the exchanges the truncation drops, of which there are
    [exchange_count - 20]; so it is the sum over the stored list when
    [exchange_count] is at most 20. *)
Theorem totals_cover_all_exchanges (now : Z)
    (data : CoinGeckoTickersResponse num) :
  let doc := transformVolumeData now data in
  let dropped := skipn 20 (sorted_exchanges (tickers data)) in
  total_volume_usd doc
  = fold_left (fun sum e => (sum + volume_usd e)%js) dropped
      (reduce_sum (@volume_usd num) (exchanges doc))
  /\ total_volume_near doc
     = fold_left (fun sum e => (sum + volume_near e)%js) dropped
         (reduce_sum (@volume_near num) (exchanges doc))
  /\ List.length dropped = (exchange_count doc - 20)%nat
  /\ ((exchange_count doc <= 20)%nat ->
      total_volume_usd doc = reduce_sum (@volume_usd num) (exchanges doc)
      /\ total_volume_near doc
         = reduce_sum (@volume_near num) (exchanges doc)).
Proof.
  cbv zeta. unfold transformVolumeData.
  cbn [total_volume_usd total_volume_near exchange_count exchanges].
  change 20%Z with (Z.of_nat 20). rewrite slice_to_firstn.
  repeat split.
  - apply reduce_sum_split.
  - apply reduce_sum_split.
  - apply length_skipn.
  - now rewrite firstn_all2.
  - now rewrite firstn_all2.
Qed.

End SnapshotFacts.

(** C1, refuted: scenario B, 25 exchanges trading 1, 2, ..., 25.  The
    snapshot stores the 20 largest, whose volumes sum to 310, and its totals
    are 325, the sum over all 25. *)
Lemma totals_exceed_stored_top20 :
  let doc := transformVolumeData 0 (numbered_exchanges 25 float_of_nat) in
  List.length (exchanges doc) = 20%nat
  /\ exchange_count doc = 25%nat
  /\ total_volume_usd doc = 325%float
  /\ reduce_sum (@volume_usd float) (exchanges doc) = 310%float
  /\ total_volume_near doc = 325%float
  /\ reduce_sum (@volume_near float) (exchanges doc) = 310%float.
Proof. vm_compute. repeat split. Qed.

(** ** Order of the tickers *)

Section OrderFacts.
Context {num : Type} `{JsNumber num}.

Lemma aggregate_counted (l : list (CoinGeckoTicker num)) :
  aggregate l = aggregate (filter counted l).
Proof. apply fold_aggregate_counted. Qed.

Lemma in_sorted_exchanges_names (l : list (CoinGeckoTicker num)) (x : string) :
  In x (map (@name num) (sorted_exchanges l))
  <-> In x (map (@market_name num) (filter counted l)).
Proof.
  destruct (aggregate_keys l) as (_ & Hnames & Hin).
  unfold distinct_exchanges in Hin. setoid_rewrite nodup_In in Hin.
  rewrite <- Hin, <- Hnames. unfold sorted_exchanges.
  split; apply Permutation_in, Permutation_map;
    [apply js_sort_perm | apply Permutation_sym, js_sort_perm].
Qed.

Lemma distinct_exchanges_perm (l l' : list (CoinGeckoTicker num)) :
  Permutation l l' ->
  Permutation (distinct_exchanges l) (distinct_exchanges l').
Proof.
  intro Hp. unfold distinct_exchanges.
  apply NoDup_Permutation; try apply NoDup_nodup.
  intro x. rewrite !nodup_In.
  assert (Hq : Permutation (map (@market_name num) (filter counted l))
                 (map (@market_name num) (filter counted l'))).
  { apply Permutation_map. clear -Hp.
    induction Hp as [|t ? ? ? IH|s t ?|? ? ? ? IH1 ? IH2]; cbn.
    - constructor.
    - destruct (counted t); [now constructor | exact IH].
    - destruct (counted s), (counted t); try reflexivity. apply perm_swap.
    - now transitivity (filter counted l'). }
  split; apply Permutation_in; [exact Hq | now apply Permutation_sym].
Qed.

End OrderFacts.

Definition first_seen_green : list (CoinGeckoTicker float) :=
  [ sample_ticker "Binance" "USDT" 1%float (Some "green") false;
    sample_ticker "Binance" "USDC" 2%float (Some "yellow") false ].

Definition first_seen_yellow : list (CoinGeckoTicker float) :=
  [ sample_ticker "Binance" "USDC" 2%float (Some "yellow") false;
    sample_ticker "Binance" "USDT" 1%float (Some "green") false ].



(** ** Binary64: subtraction and order *)

(** [b - a > 0] and [a < b] agree on all of binary64, the infinities and
    [NaN] included: the difference of two distinct finite numbers never
    rounds to zero, and rounding keeps its sign. *)
Section Binary64.
Local Open Scope Z_scope.

Lemma digits2_size (m : positive) : digits2_pos m = Pos.size m.
Proof. induction m; cbn; congruence. Qed.

Lemma digits2_upper (m : positive) : Zpos m < 2 ^ Zpos (digits2_pos m).
Proof.
  rewrite digits2_size. pose proof (Pos.size_gt m) as Hgt.
  apply Pos2Z.pos_lt_pos in Hgt. now rewrite Pos2Z.inj_pow in Hgt.
Qed.

Lemma digits2_lower (m : positive) : 2 ^ (Zpos (digits2_pos m) - 1) <= Zpos m.
Proof.
  rewrite digits2_size. pose proof (Pos.size_le m) as Hle.
  apply Pos2Z.pos_le_pos in Hle. rewrite Pos2Z.inj_pow in Hle.
  replace (Zpos (Pos.size m)) with (Z.succ (Zpos (Pos.size m) - 1)) in Hle by lia.
  rewrite Z.pow_succ_r in Hle by lia. 
  change (Zpos m~0) with (2 * Zpos m) in Hle. lia.
Qed.

Lemma iter_xO (m d : positive) : Zpos (Pos.iter xO m d) = Zpos m * 2 ^ Zpos d.
Proof.
  induction d as [|d IH] using Pos.peano_ind.
  - cbn. lia.
  - rewrite Pos.iter_succ, Pos2Z.inj_succ, Z.pow_succ_r by lia.
    change (Zpos (Pos.iter xO m d)~0) with (2 * Zpos (Pos.iter xO m d)). lia.
Qed.

Lemma shl_align_value (m : positive) (e ez : Z) :
  ez <= e -> Zpos (fst (shl_align m e ez)) = Zpos m * 2 ^ (e - ez).
Proof.
  intro Hle. unfold shl_align.
  destruct (ez - e) as [|d|d] eqn:E; cbn [fst]; try lia.
  - replace (e - ez) with 0 by lia. lia.
  - rewrite iter_xO. f_equal. f_equal. lia.
Qed.

Lemma bounded_inv (m : positive) (e : Z) :
  bounded prec emax m e = true ->
  -1074 <= e /\ Zpos (digits2_pos m) <= 53
  /\ (-1074 < e -> Zpos (digits2_pos m) = 53).
Proof.
  unfold bounded, canonical_mantissa, fexp, SpecFloat.emin.
  intro Hb. apply andb_prop in Hb. destruct Hb as [Hc _].
  apply Z.eqb_eq in Hc. change prec with 53 in Hc. change emax with 1024 in Hc.
  lia.
Qed.

Lemma magnitude_compare (ma mb : positive) (ea eb : Z) :
  bounded prec emax ma ea = true -> bounded prec emax mb eb = true ->
  match ea ?= eb with
  | Lt => Lt
  | Gt => Gt
  | Eq => Pos.compare_cont Eq ma mb
  end
  = (Zpos ma * 2 ^ (ea - Z.min eb ea) ?= Zpos mb * 2 ^ (eb - Z.min eb ea)).
Proof.
  intros Ha Hb.
  destruct (bounded_inv _ _ Ha) as (Hea & Hda & Hna).
  destruct (bounded_inv _ _ Hb) as (Heb & Hdb & Hnb).
  pose proof (digits2_upper ma) as Hua. pose proof (digits2_lower ma) as Hla.
  pose proof (digits2_upper mb) as Hub. pose proof (digits2_lower mb) as Hlb.
  assert (Hmono : forall d, Zpos d <= 53 -> 2 ^ Zpos d <= 2 ^ 53)
    by (intros d Hd; apply Z.pow_le_mono_r; lia).
  assert (Hstep : forall k, 1 <= k -> 2 <= 2 ^ k)
    by (intros k Hk; change 2 with (2 ^ 1) at 1; apply Z.pow_le_mono_r; lia).
  destruct (Z.compare_spec ea eb) as [->|Hlt|Hgt].
  - rewrite Z.min_id, Z.sub_diag, !Z.mul_1_r. reflexivity.
  - rewrite Z.min_r by lia. rewrite Z.sub_diag, Z.mul_1_r.
    symmetry. apply Z.compare_lt_iff.
    rewrite Hnb in Hlb by lia. specialize (Hmono _ Hda).
    specialize (Hstep (eb - ea) ltac:(lia)).
    change (2 ^ (53 - 1)) with 4503599627370496 in Hlb.
    change (2 ^ 53) with 9007199254740992 in Hmono. nia.
  - rewrite Z.min_l by lia. rewrite Z.sub_diag, Z.mul_1_r.
    symmetry. apply Z.compare_gt_iff.
    rewrite Hna in Hla by lia. specialize (Hmono _ Hdb).
    specialize (Hstep (ea - eb) ltac:(lia)).
    change (2 ^ (53 - 1)) with 4503599627370496 in Hla.
    change (2 ^ 53) with 9007199254740992 in Hmono. nia.
Qed.

Lemma shr_1_digits (k : positive) (mrs : shr_record) :
  has_digits (Pos.succ k) mrs -> has_digits k (shr_1 mrs).
Proof.
  intros (q & Hm & Hd). destruct mrs as [m r s]. cbn in Hm. subst m.
  destruct q as [q|q|]; cbn in Hd.
  - exists q. split; [reflexivity | now apply Pos.succ_inj].
  - exists q. split; [reflexivity | now apply Pos.succ_inj].
  - lia.
Qed.

Lemma iter_shr_1_digits (p k : positive) (mrs : shr_record) :
  has_digits (k + p) mrs -> has_digits k (SpecFloat.iter_pos shr_1 p mrs).
Proof.
  revert k mrs. induction p as [p IH|p IH|]; intros k mrs Hd; cbn.
  - apply IH, IH, shr_1_digits.
    now replace (Pos.succ (k + p + p)) with (k + p~1)%positive by lia.
  - apply IH, IH. now replace (k + p + p)%positive with (k + p~0)%positive by lia.
  - apply shr_1_digits. now replace (Pos.succ k) with (k + 1)%positive by lia.
Qed.

Lemma shr_record_of_loc_m (m : Z) (l : location) :
  shr_m (shr_record_of_loc m l) = m.
Proof. destruct l as [|[]]; reflexivity. Qed.

Lemma shr_fexp_positive (q : positive) (e : Z) (l : location) :
  -1074 <= e ->
  exists q' e', shr_fexp prec emax (Zpos q) e l
                = (fst (shr_fexp prec emax (Zpos q) e l), e')
                /\ shr_m (fst (shr_fexp prec emax (Zpos q) e l)) = Zpos q'
                /\ -1074 <= e'.
Proof.
  intro He. unfold shr_fexp, shr, fexp, SpecFloat.emin.
  change prec with 53. change emax with 1024. cbn [Zdigits2].
  destruct (Z.max (Zpos (digits2_pos q) + e - 53) (3 - 1024 - 53) - e)
    as [|p|p] eqn:En; cbn [fst].
  - exists q, e. rewrite shr_record_of_loc_m. repeat split; trivial.
  - destruct (@iter_shr_1_digits p 53 (shr_record_of_loc (Zpos q) l))
      as (q' & Hq' & _).
    { exists q. rewrite shr_record_of_loc_m. split; [reflexivity|]. lia. }
    exists q', (e + Zpos p). repeat split; trivial. lia.
  - exists q, e. rewrite shr_record_of_loc_m. repeat split; trivial.
Qed.

Lemma round_nearest_even_positive (q : positive) (l : location) :
  exists q', round_nearest_even (Zpos q) l = Zpos q'.
Proof.
  destruct l as [|[]]; unfold round_nearest_even.
  - now exists q.
  - destruct (Z.even (Zpos q)); [now exists q | now exists (q + 1)%positive].
  - now exists q.
  - now exists (q + 1)%positive.
Qed.

Lemma binary_round_aux_positive (q : positive) (e : Z) (l : location) :
  -1074 <= e -> above_zero (binary_round_aux prec emax false (Zpos q) e l) = true.
Proof.
  intro He. unfold binary_round_aux.
  destruct (shr_fexp_positive q l He) as (q1 & e1 & E1 & Hm1 & He1).
  rewrite E1, Hm1.
  destruct (round_nearest_even_positive q1
              (loc_of_shr_record (fst (shr_fexp prec emax (Zpos q) e l))))
    as (q2 & ->).
  destruct (shr_fexp_positive q2 loc_Exact He1) as (q3 & e3 & E3 & Hm3 & _).
  rewrite E3, Hm3. now destruct (e3 <=? emax - prec).
Qed.

Lemma binary_round_positive (m : positive) (e : Z) :
  -1074 <= e -> above_zero (binary_round prec emax false m e) = true.
Proof.
  intro He. unfold binary_round, shl_align.
  destruct (fexp prec emax (Zpos (digits2_pos m) + e) - e) eqn:En;
    try now apply binary_round_aux_positive.
  apply binary_round_aux_positive.
  unfold fexp, SpecFloat.emin. change prec with 53. change emax with 1024. lia.
Qed.

Lemma binary_round_negative (m : positive) (e : Z) :
  above_zero (binary_round prec emax true m e) = false.
Proof.
  unfold binary_round, binary_round_aux.
  destruct (shl_align _ _ _) as [mz ez].
  destruct (shr_fexp prec emax (Zpos mz) ez loc_Exact) as [mrs1 e1].
  destruct (shr_fexp _ _ _ _ _) as [mrs2 e2].
  destruct (shr_m mrs2); try reflexivity.
  now destruct (e2 <=? emax - prec).
Qed.

Lemma binary_normalize_above_zero (d e : Z) :
  -1074 <= e ->
  above_zero (binary_normalize prec emax d e false) = (0 <? d).
Proof.
  intro He. destruct d as [|m|m]; cbn [binary_normalize].
  - reflexivity.
  - now apply binary_round_positive.
  - apply binary_round_negative.
Qed.

Lemma finite_sub_above_zero (sa sb : bool) (ma mb : positive) (ea eb : Z) :
  bounded prec emax ma ea = true -> bounded prec emax mb eb = true ->
  above_zero (SF64sub (S754_finite sb mb eb) (S754_finite sa ma ea))
  = SFltb (S754_finite sa ma ea) (S754_finite sb mb eb).
Proof.
  intros Ha Hb.
  destruct (bounded_inv _ _ Ha) as (Hea & _). destruct (bounded_inv _ _ Hb) as (Heb & _).
  unfold SF64sub, SFsub. cbv zeta.
  rewrite binary_normalize_above_zero by lia.
  rewrite !shl_align_value by lia.
  unfold SFltb, SFcompare.
  pose proof (magnitude_compare ma mb ea eb Ha Hb) as Hc.
  assert (Hpa : 0 < Zpos ma * 2 ^ (ea - Z.min eb ea))
    by (apply Z.mul_pos_pos; [lia | apply Z.pow_pos_nonneg; lia]).
  assert (Hpb : 0 < Zpos mb * 2 ^ (eb - Z.min eb ea))
    by (apply Z.mul_pos_pos; [lia | apply Z.pow_pos_nonneg; lia]).
  revert Hc Hpa Hpb.
  generalize (Zpos ma * 2 ^ (ea - Z.min eb ea)).
  generalize (Zpos mb * 2 ^ (eb - Z.min eb ea)).
  intros vb va Hc Hpa Hpb.
  destruct sa, sb; cbn [cond_Zopp].
  - replace (match ea ?= eb with
             | Eq => CompOpp (Pos.compare_cont Eq ma mb)
             | Lt => Gt
             | Gt => Lt
             end)
      with (CompOpp (match ea ?= eb with
                     | Eq => Pos.compare_cont Eq ma mb
                     | Lt => Lt
                     | Gt => Gt
                     end))
      by (destruct (ea ?= eb); reflexivity).
    rewrite Hc.
    destruct (Z.compare_spec va vb); cbn [CompOpp];
      [apply Z.ltb_ge | apply Z.ltb_ge | apply Z.ltb_lt]; lia.
  - apply Z.ltb_lt. lia.
  - apply Z.ltb_ge. lia.
  - rewrite Hc.
    destruct (Z.compare_spec va vb);
      [apply Z.ltb_ge | apply Z.ltb_lt | apply Z.ltb_ge]; lia.
Qed.

Lemma float_sub_positive (a b : float) : (0 <? b - a)%float = (a <? b)%float.
Proof.
  rewrite !FloatAxioms.ltb_spec, FloatAxioms.sub_spec. change (Prim2SF 0) with (S754_zero false).
  pose proof (Prim2SF_valid a) as Va. pose proof (Prim2SF_valid b) as Vb.
  destruct (Prim2SF a) as [sa|sa| |sa ma ea], (Prim2SF b) as [sb|sb| |sb mb eb];
    try (now apply finite_sub_above_zero);
    try destruct sa; try destruct sb; reflexivity.
Qed.

Lemma float_ltb_asym (a b : float) :
  (a <? b)%float = true -> (b <? a)%float = false.
Proof.
  rewrite !FloatAxioms.ltb_spec. unfold SFltb, SFcompare.
  destruct (Prim2SF a) as [sa|sa| |sa ma ea], (Prim2SF b) as [sb|sb| |sb mb eb];
    try destruct sa; try destruct sb; try discriminate; try reflexivity;
    change (Pos.compare_cont Eq mb ma) with (mb ?= ma)%positive;
    change (Pos.compare_cont Eq ma mb) with (ma ?= mb)%positive;
    rewrite (Z.compare_antisym ea eb), (Pos.compare_antisym ma mb);
    destruct (ea ?= eb), (ma ?= mb)%positive; cbn; try discriminate;
    reflexivity.
Qed.
End Binary64.

#[export] Instance float_subtraction_order : SubtractionOrder float.
Proof. split; [exact float_sub_positive | exact float_ltb_asym]. Qed.

(** ** The distribution's percentages *)

#[export] Instance Qc_exact : ExactArithmetic Qc.
Proof.
  split; cbn; intros.
  - apply Qcplus_assoc.
  - apply Qcplus_0_l.
  - unfold Qcdiv. apply Qcmult_plus_distr_l.
  - apply Qcmult_plus_distr_l.
  - unfold Qcdiv. rewrite Qcmult_inv_r, Qcmult_1_l; [reflexivity|].
    intros ->. discriminate.
Qed.

Section DistributionFacts.
Context {num : Type} `{JsNumber num} `{!ExactArithmetic num}.

Lemma share_add (a b total : num) :
  (total === num_zero)%js = false ->
  (calculatePercentage a total + calculatePercentage b total)%js
  = calculatePercentage (a + b)%js total.
Proof.
  intro Hne. unfold calculatePercentage. rewrite Hne.
  now rewrite div_add, mul_add.
Qed.

Lemma fold_add_shift (l : list num) (a b : num) :
  fold_left num_add l (a + b)%js = (a + fold_left num_add l b)%js.
Proof.
  revert b. induction l as [|x rest IH]; intro b; cbn; [reflexivity|].
  now rewrite <- add_assoc, IH.
Qed.

Lemma reduce_sum_map (A : Type) (f : A -> num) (l : list A) :
  reduce_sum f l = fold_left num_add (map f l) num_zero.
Proof.
  unfold reduce_sum. generalize (@num_zero num _).
  induction l as [|x rest IH]; intro acc; cbn; [reflexivity | apply IH].
Qed.

Lemma reduce_sum_app (A : Type) (f : A -> num) (l1 l2 : list A) :
  l2 <> [] ->
  reduce_sum f (l1 ++ l2) = (reduce_sum f l1 + reduce_sum f l2)%js.
Proof.
  intro Hl. rewrite !reduce_sum_map, map_app, fold_left_app.
  destruct l2 as [|x rest]; [contradiction|]. cbn.
  now rewrite add_zero_l, fold_add_shift.
Qed.

Lemma shares_from (total : num) (l : list num) (acc : num) :
  (total === num_zero)%js = false ->
  fold_left num_add (map (fun x => calculatePercentage x total) l)
    (calculatePercentage acc total)
  = calculatePercentage (fold_left num_add l acc) total.
Proof.
  intro Hne. revert acc. induction l as [|x rest IH]; intro acc; cbn;
    [reflexivity|].
  now rewrite share_add, IH.
Qed.

(** The shares of a non-empty list add up to the share of its sum. *)
Lemma shares_sum (total : num) (l : list num) :
  (total === num_zero)%js = false -> l <> [] ->
  fold_left num_add (map (fun x => calculatePercentage x total) l) num_zero
  = calculatePercentage (fold_left num_add l num_zero) total.
Proof.
  intros Hne Hl. destruct l as [|x rest]; [contradiction|]. cbn.
  rewrite !add_zero_l. now apply shares_from.
Qed.

Lemma percentage_mapi_from (total : num) (l : list (ExchangeVolume num))
    (i : nat) :
  map (@percentage num)
    (mapi_from
       (fun exchange index =>
          {| pie_name := name exchange;
             pie_value := volume_usd exchange;
             percentage := calculatePercentage (volume_usd exchange) total;
             pie_color := nth_error PIE_COLORS index |}) i l)
  = map (fun x => calculatePercentage x total) (map (@volume_usd num) l).
Proof.
  revert i. induction l as [|e rest IH]; intro i; cbn; [reflexivity|].
  now rewrite IH.
Qed.

Lemma distribution_of_consistent_total (doc : VolumeDocument num) :
  exchanges doc <> [] ->
  (total_volume_usd doc === num_zero)%js = false ->
  total_volume_usd doc = reduce_sum (@volume_usd num) (exchanges doc) ->
  reduce_sum (@percentage num) (build_distribution doc) = num_hundred.
Proof.
  intros Hl Hne Htotal. unfold build_distribution.
  change (Z.of_nat MAX_DISPLAY_EXCHANGES) with (Z.of_nat 10).
  rewrite slice_to_firstn. unfold mapi, slice_from, MAX_DISPLAY_EXCHANGES.
  set (total := total_volume_usd doc) in *.
  set (l := exchanges doc) in *.
  destruct (Nat.ltb_spec 10 (List.length l)) as [Hlong|Hshort].
  - rewrite reduce_sum_map, map_app, percentage_mapi_from, fold_left_app.
    rewrite shares_sum; trivial.
    2:{ destruct l; cbn in *; [lia | discriminate]. }
    cbn [map fold_left percentage]. rewrite share_add by exact Hne.
    rewrite <- reduce_sum_map.
    assert (Hsplit : total
                     = (reduce_sum (@volume_usd num) (firstn 10 l)
                        + reduce_sum (@volume_usd num) (skipn 10 l))%js).
    { rewrite Htotal, <- reduce_sum_app; [now rewrite firstn_skipn|].
      intro Es. apply (f_equal (@List.length _)) in Es.
      rewrite length_skipn in Es. cbn in Es. lia. }
    rewrite <- Hsplit. unfold calculatePercentage. rewrite Hne.
    now apply whole.
  - rewrite reduce_sum_map, percentage_mapi_from.
    rewrite firstn_all2 by exact Hshort.
    rewrite shares_sum; trivial.
    2:{ destruct l; [contradiction | discriminate]. }
    rewrite <- reduce_sum_map. fold l in Htotal. rewrite <- Htotal.
    unfold calculatePercentage. rewrite Hne. now apply whole.
Qed.

End DistributionFacts.

(** ** Sorted queries *)

Section StoreFacts.
Context {num : Type}.
Implicit Types (d e : VolumeDocument num) (l : list (VolumeDocument num)).

Lemma sort_doc_insert_perm (ascending : bool) d l :
  Permutation (sort_doc_insert ascending d l) (d :: l).
Proof.
  induction l as [|e rest IH]; cbn; [reflexivity|].
  destruct (sorts_after ascending d e); [|reflexivity].
  rewrite IH. apply perm_swap.
Qed.

Lemma sort_by_timestamp_perm (ascending : bool) l :
  Permutation (sort_by_timestamp ascending l) l.
Proof.
  induction l as [|d rest IH]; cbn; [reflexivity|].
  fold (sort_by_timestamp ascending rest).
  rewrite sort_doc_insert_perm. now constructor.
Qed.

Lemma sorts_after_false (ascending : bool) d e :
  sorts_after ascending d e = false -> sorts_before ascending d e.
Proof.
  unfold sorts_after, sorts_before. destruct ascending; intro E;
    apply Z.ltb_ge in E; exact E.
Qed.

Lemma sorts_after_true (ascending : bool) d e :
  sorts_after ascending d e = true -> sorts_before ascending e d.
Proof.
  unfold sorts_after, sorts_before. destruct ascending; intro E;
    apply Z.ltb_lt in E; lia.
Qed.

Lemma sort_doc_insert_sorted (ascending : bool) d l :
  Sorted (sorts_before ascending) l ->
  Sorted (sorts_before ascending) (sort_doc_insert ascending d l).
Proof.
  induction l as [|e rest IH]; intro Hs; cbn.
  - repeat constructor.
  - destruct (sorts_after ascending d e) eqn:E.
    + inversion Hs as [|? ? Hrest Hhd]; subst.
      constructor; [now apply IH|].
      destruct rest as [|c rest']; cbn.
      * constructor. now apply sorts_after_true.
      * destruct (sorts_after ascending d c).
        -- inversion Hhd; subst. now constructor.
        -- constructor. now apply sorts_after_true.
    + constructor; [exact Hs|]. constructor. now apply sorts_after_false.
Qed.

Lemma sort_by_timestamp_sorted (ascending : bool) l :
  Sorted (sorts_before ascending) (sort_by_timestamp ascending l).
Proof.
  induction l as [|d rest IH]; cbn; [constructor|].
  now apply sort_doc_insert_sorted.
Qed.

Lemma sorts_before_trans (ascending : bool) :
  Relations_1.Transitive (@sorts_before num ascending).
Proof.
  intros d e f. unfold sorts_before. destruct ascending; lia.
Qed.

(** [findOne] answers nothing on an empty selection only, and otherwise a
    document of the selection that may stand before all the others. *)
Lemma findOne_spec (ascending : bool) l :
  match findOne l ascending with
  | None => l = []
  | Some d => In d l /\ forall e, In e l -> sorts_before ascending d e
  end.
Proof.
  unfold findOne.
  pose proof (sort_by_timestamp_perm ascending l) as Hp.
  pose proof (sort_by_timestamp_sorted ascending l) as Hs.
  destruct (sort_by_timestamp ascending l) as [|d rest]; cbn.
  - now apply Permutation_nil.
  - split.
    + apply (Permutation_in _ Hp). now left.
    + intros e He. apply (Permutation_in _ (Permutation_sym Hp)) in He.
      apply Sorted_StronglySorted in Hs; [|apply sorts_before_trans].
      apply StronglySorted_inv in Hs. destruct Hs as [_ Hall].
      destruct He as [<-|He].
      * unfold sorts_before. destruct ascending; lia.
      * rewrite Forall_forall in Hall. now apply Hall.
Qed.
End StoreFacts.

(** ** [GET /api/volumes]: the change over 24 hours *)

Lemma timestamp_snapshot_of (ts : Z) (vol : float) :
  timestamp (snapshot_of ts vol) = ts.
Proof. reflexivity. Qed.

(** C7, refuted: the oldest snapshot of the window is worth 0 and the
    latest 5.  The formula gives [(5 - 0) / 0 * 100 = Infinity]; the route
    reports a change of 0. *)
Lemma change_from_zero_is_reported_as_zero :
  let now := 1700000000000%Z in
  let earliest := snapshot_of (now - 23 * 60 * 60 * 1000) 0%float in
  let latest := snapshot_of (now - 10 * 60 * 1000) 5%float in
  scenario_C_from_zero now = [earliest; latest]
  /\ exists r,
       GET_volumes now (scenario_C_from_zero now) = Success r
       /\ volume_change_24h r = 0%float
       /\ ((total_volume_usd latest - total_volume_usd earliest)
           / total_volume_usd earliest * 100)%float = infinity.
Proof.
  cbv zeta. split; [reflexivity|].
  eexists. split; [reflexivity|]. split; reflexivity.
Qed.

(** C7, amended: the route answers "not found" on an empty collection
    only.  Otherwise, with [latest] a snapshot of the greatest timestamp
    and [earliest] a snapshot of the least timestamp among those at or
    after [now - 24h], the change reported is
    [(latest - earliest) / earliest * 100] of their [total_volume_usd] when
    that of [earliest] is truthy (neither zero nor [NaN]), and 0 when it is
    not or when no snapshot is at or after the start of the window.  On
    scenario C the change is 25. *)
Theorem volume_change_over_24h :
  (forall (num : Type) (N : JsNumber num) (now : Z) (store : @Collection num),
      match GET_volumes now store with
      | NotFound _ => store = []
      | BadRequest _ => False
      | Success r =>
          exists latest,
            In latest store
            /\ (forall d, In d store -> (timestamp d <= timestamp latest)%Z)
            /\ resp_total_volume_usd r = total_volume_usd latest
            /\ let start := (now - 24 * 60 * 60 * 1000)%Z in
               ((forall d, In d store -> (timestamp d < start)%Z)
                /\ volume_change_24h r = num_zero)
               \/ (exists earliest,
                      In earliest store
                      /\ (start <= timestamp earliest)%Z
                      /\ (forall d, In d store -> (start <= timestamp d)%Z ->
                                    (timestamp earliest <= timestamp d)%Z)
                      /\ volume_change_24h r
                         = if truthy (total_volume_usd earliest)
                           then ((total_volume_usd latest
                                  - total_volume_usd earliest)
                                 / total_volume_usd earliest
                                 * num_hundred)%js
                           else num_zero)
      end)
  /\ (forall now,
        exists r,
          GET_volumes now (scenario_C now) = Success r
          /\ volume_change_24h r = 25%float).
Proof.
  split.
  - intros num N now store. unfold GET_volumes.
    pose proof (findOne_spec false store) as Hlatest.
    destruct (findOne store false) as [latest|]; [|exact Hlatest].
    destruct Hlatest as [Hin Hmax].
    exists latest. split; [exact Hin|]. split; [exact Hmax|].
    split; [reflexivity|]. cbv zeta.
    cbn [volume_change_24h].
    pose proof (findOne_spec true
                  (find_since (now - 24 * 60 * 60 * 1000) store)) as Hold.
    destruct (findOne (find_since (now - 24 * 60 * 60 * 1000) store) true)
      as [earliest|].
    + right. destruct Hold as [Hine Hmin]. exists earliest.
      unfold find_since in Hine, Hmin. apply filter_In in Hine.
      destruct Hine as [Hine Hge]. apply Z.leb_le in Hge.
      repeat split; trivial.
      intros d Hd Hdge. apply (Hmin d). apply filter_In. split; [exact Hd|].
      now apply Z.leb_le.
    + left. split; [|reflexivity].
      intros d Hd.
      destruct (Z.lt_ge_cases (timestamp d) (now - 24 * 60 * 60 * 1000))
        as [Hlt|Hge]; [exact Hlt|].
      exfalso.
      assert (Hf : In d (find_since (now - 24 * 60 * 60 * 1000) store))
        by (apply filter_In; split; [exact Hd | now apply Z.leb_le]).
      rewrite Hold in Hf. exact Hf.
  - intro now.
    assert (E1 : (now - 24 * 60 * 60 * 1000 <=? now - 23 * 60 * 60 * 1000)%Z
                 = true) by (apply Z.leb_le; lia).
    assert (E2 : (now - 24 * 60 * 60 * 1000 <=? now - 10 * 60 * 1000)%Z
                 = true) by (apply Z.leb_le; lia).
    assert (E3 : (now - 23 * 60 * 60 * 1000 <? now - 10 * 60 * 1000)%Z
                 = true) by (apply Z.ltb_lt; lia).
    assert (E4 : (now - 10 * 60 * 1000 <? now - 23 * 60 * 60 * 1000)%Z
                 = false) by (apply Z.ltb_ge; lia).
    unfold GET_volumes, scenario_C, findOne, find_since, sort_by_timestamp.
    repeat (progress (cbn [filter fold_right sort_doc_insert hd_error];
                      unfold sorts_after;
                      rewrite ?timestamp_snapshot_of, ?E1, ?E2, ?E3, ?E4)).
    eexists. split; [reflexivity|]. reflexivity.
Qed.

(** ** Runs of the snapshot and of the distribution *)




(** Fifteen exchanges: nothing is dropped and the totals are those of the
    stored list. *)
Lemma totals_cover_all_exchanges_witness :
  let doc := transformVolumeData 0 (numbered_exchanges 15 float_of_nat) in
  total_volume_usd doc = reduce_sum (@volume_usd float) (exchanges doc)
  /\ total_volume_near doc = reduce_sum (@volume_near float) (exchanges doc).
Proof.
  assert (Hcount : (exchange_count
                      (transformVolumeData 0
                         (numbered_exchanges 15 float_of_nat)) <= 20)%nat)
    by (vm_compute; lia).
  exact (proj2 (proj2 (proj2
           (totals_cover_all_exchanges (num := float) 0
              (numbered_exchanges 15 float_of_nat)))) Hcount).
Defined.

(** ** Deduplication *)

Lemma existsb_eqb_in (x : Z) (l : list Z) :
  existsb (Z.eqb x) l = true <-> In x l.
Proof.
  rewrite existsb_exists. split.
  - intros (y & Hy & E). apply Z.eqb_eq in E. now subst.
  - intro Hx. exists x. split; [exact Hx | apply Z.eqb_refl].
Qed.

Lemma unique_aux_in (l seen : list Z) (x : Z) :
  In x (unique_aux seen l) <-> In x l /\ ~ In x seen.
Proof.
  revert seen. induction l as [|y rest IH]; intro seen; cbn; [tauto|].
  destruct (existsb (Z.eqb y) seen) eqn:E.
  - apply existsb_eqb_in in E. rewrite IH.
    split; [tauto|]. intros [[<-|Hx] Hn]; [contradiction | tauto].
  - assert (Hy : ~ In y seen)
      by (intro Hy; apply existsb_eqb_in in Hy; congruence).
    cbn. rewrite IH. cbn.
    destruct (Z.eq_dec y x) as [<-|Hne]; [tauto|]. tauto.
Qed.

Lemma unique_aux_NoDup (l seen : list Z) : NoDup (unique_aux seen l).
Proof.
  revert seen. induction l as [|y rest IH]; intro seen; cbn; [constructor|].
  destruct (existsb (Z.eqb y) seen); [apply IH|].
  constructor; [|apply IH].
  rewrite unique_aux_in. cbn. tauto.
Qed.

Lemma unique_aux_sorted (l seen : list Z) :
  StronglySorted Z.le l -> StronglySorted Z.lt (unique_aux seen l).
Proof.
  revert seen. induction l as [|y rest IH]; intros seen Hs; cbn;
    [constructor|].
  apply StronglySorted_inv in Hs. destruct Hs as [Hrest Hall].
  destruct (existsb (Z.eqb y) seen); [now apply IH|].
  constructor; [now apply IH|].
  apply Forall_forall. intros x Hx. apply unique_aux_in in Hx.
  destruct Hx as [Hx Hn]. rewrite Forall_forall in Hall.
  specialize (Hall x Hx). cbn in Hn.
  destruct (Z.eq_dec y x); [tauto | lia].
Qed.

(** ** [GET /api/volumes/history/exchanges] *)

Lemma in_mapi_from (A B : Type) (f : A -> nat -> B) (l : list A) (i : nat)
    (y : B) :
  In y (mapi_from f i l) -> exists x j, In x l /\ y = f x j.
Proof.
  revert i. induction l as [|x rest IH]; intro i; cbn; [tauto|].
  intros [<-|Hy].
  - exists x, i. split; [now left | reflexivity].
  - destruct (IH _ Hy) as (x' & j & Hx' & E). exists x', j.
    split; [now right | exact E].
Qed.

Lemma NoDup_firstn (A : Type) (n : nat) (l : list A) :
  NoDup l -> NoDup (firstn n l).
Proof.
  revert l. induction n as [|n IH]; intros [|x l] Hnd; cbn; try constructor.
  - apply NoDup_cons_iff in Hnd. destruct Hnd as [Hx _].
    intro Hin. apply Hx. revert Hin. clear.
    revert l. induction n as [|n IH]; intros [|y l]; cbn; try tauto.
    intros [E|Hin]; [now left | right; now apply IH].
  - apply IH. now apply NoDup_cons_iff in Hnd.
Qed.

Lemma slice_to_prefix (A : Type) (l : list A) (e : Z) :
  exists n, slice_to l e = firstn n l.
Proof. unfold slice_to. destruct (e <? 0)%Z; eexists; reflexivity. Qed.

Section HistoryFacts.
Context {num : Type} `{JsNumber num}.
Implicit Types (doc : VolumeDocument num) (docs : list (VolumeDocument num)).

Lemma exchange_totals_NoDup docs : NoDup (JsMap.keys (exchange_totals docs)).
Proof.
  unfold exchange_totals.
  assert (Hin : forall l (m : JsMap.t num),
             NoDup (JsMap.keys m) ->
             NoDup (JsMap.keys (fold_left add_exchange_total l m))).
  { induction l as [|e rest IH]; intros m Hm; cbn; [exact Hm|].
    apply IH. unfold add_exchange_total. now apply NoDup_keys_set. }
  assert (Hall : forall (m : JsMap.t num),
             NoDup (JsMap.keys m) ->
             NoDup (JsMap.keys
                      (fold_left
                         (fun totals doc =>
                            fold_left add_exchange_total (exchanges doc)
                              totals) docs m))).
  { induction docs as [|doc rest IH]; intros m Hm; cbn; [exact Hm|].
    apply IH. now apply Hin. }
  apply Hall. constructor.
Qed.

Lemma top_exchanges_NoDup (limit : option Z) docs :
  NoDup (top_exchanges limit docs).
Proof.
  unfold top_exchanges.
  destruct (slice_to_prefix
              (js_sort by_total_desc (JsMap.entries (exchange_totals docs)))
              (match limit with Some n => n | None => 0%Z end)) as [n ->].
  rewrite <- firstn_map. apply NoDup_firstn.
  apply (Permutation_NoDup
           (l := JsMap.keys (exchange_totals docs)));
    [|apply exchange_totals_NoDup].
  unfold JsMap.keys, JsMap.entries.
  apply Permutation_map, Permutation_sym, js_sort_perm.
Qed.

Lemma volume_map_none doc (x : string) :
  ~ In x (map (@name num) (exchanges doc)) ->
  JsMap.get (volume_map doc) x = None.
Proof.
  intro Hx. apply get_none_iff. unfold volume_map.
  assert (Hin : forall l (m : JsMap.t num),
             In x (JsMap.keys
                     (fold_left
                        (fun volumeMap exchange =>
                           JsMap.set volumeMap (name exchange)
                             (volume_usd exchange)) l m)) ->
             In x (JsMap.keys m) \/ In x (map (@name num) l)).
  { induction l as [|e rest IH]; intros m Hm; cbn in *; [now left|].
    apply IH in Hm. rewrite in_keys_set in Hm. intuition. }
  intro Hk. apply Hin in Hk. destruct Hk as [[]|Hk]. contradiction.
Qed.

(** One pass of the inner loop: every listed exchange gains its point, and
    no other series changes. *)
Lemma push_points (p : string -> Point num) (names : list string)
    (data : JsMap.t (list (Point num))) (x : string) :
  NoDup names ->
  let after :=
    fold_left (fun data name => push_point data name (p name)) names data in
  (In x names ->
   JsMap.get after x
   = option_map (fun series => series ++ [p x]) (JsMap.get data x))
  /\ (~ In x names -> JsMap.get after x = JsMap.get data x).
Proof.
  revert data. induction names as [|n rest IH]; intros data Hnd; cbn.
  - split; [contradiction | reflexivity].
  - apply NoDup_cons_iff in Hnd. destruct Hnd as [Hn Hrest].
    destruct (IH (push_point data n (p n)) Hrest) as [Hin Hout].
    assert (Hother : n <> x ->
                     JsMap.get (push_point data n (p n)) x
                     = JsMap.get data x).
    { intro Hne. unfold push_point.
      destruct (JsMap.get data n); [now apply get_set_other | reflexivity]. }
    split.
    + intros [->|Hx].
      * rewrite (Hout Hn). unfold push_point.
        destruct (JsMap.get data x) eqn:E; cbn;
          [apply get_set_same | exact E].
      * rewrite (Hin Hx), Hother; [reflexivity|].
        intros ->. contradiction.
    + intro Hx. rewrite Hout by tauto. apply Hother. tauto.
Qed.

Lemma initial_series (names : list string) (x : string) :
  In x names ->
  JsMap.get
    (fold_left (fun data name => JsMap.set data name (@nil (Point num)))
       names (JsMap.empty _)) x
  = Some [].
Proof.
  assert (Hkeep : forall l (m : JsMap.t (list (Point num))),
             JsMap.get m x = Some [] ->
             JsMap.get
               (fold_left (fun data name => JsMap.set data name []) l m) x
             = Some []).
  { induction l as [|n rest IH]; intros m Hm; cbn; [exact Hm|].
    apply IH. destruct (string_dec n x) as [->|Hne].
    - apply get_set_same.
    - now rewrite get_set_other. }
  generalize (JsMap.empty (list (Point num))).
  induction names as [|n rest IH]; intros m Hx; cbn; [contradiction|].
  destruct (string_dec n x) as [->|Hne].
  - apply Hkeep, get_set_same.
  - apply IH. destruct Hx as [E|Hx]; [contradiction | exact Hx].
Qed.

(** The second loop appends one timestamp and, for each top exchange, one
    point per document. *)
Lemma process_documents (topExchanges : list string) docs
    (stamps : list Z) (data : JsMap.t (list (Point num))) :
  NoDup topExchanges ->
  let result := fold_left (process_document topExchanges) docs (stamps, data) in
  fst result = stamps ++ map unix_seconds docs
  /\ forall x series,
       In x topExchanges -> JsMap.get data x = Some series ->
       JsMap.get (snd result) x
       = Some (series ++ map (point_of x) docs).
Proof.
  intro Hnd. revert stamps data.
  induction docs as [|doc rest IH]; intros stamps data; cbn.
  - split; [now rewrite app_nil_r|].
    intros x series _ E. now rewrite app_nil_r.
  - destruct (IH (stamps ++ [unix_seconds doc])
                (fold_left
                   (fun data name =>
                      push_point data name
                        {| time := unix_seconds doc;
                           value := or_zero
                                      (JsMap.get (volume_map doc) name) |})
                   topExchanges data)) as [Hts Hdata].
    split.
    + rewrite Hts, <- app_assoc. reflexivity.
    + intros x series Hx E.
      rewrite (Hdata x (series ++ [point_of x doc]) Hx).
      * now rewrite <- app_assoc.
      * destruct (push_points (fun name => point_of name doc) data x Hnd)
          as [Hin _].
        unfold point_of in Hin at 1. rewrite (Hin Hx), E. reflexivity.
Qed.

Lemma build_series_spec (topExchanges : list string) docs :
  NoDup topExchanges ->
  fst (build_series topExchanges docs) = map unix_seconds docs
  /\ forall x,
       In x topExchanges ->
       JsMap.get (snd (build_series topExchanges docs)) x
       = Some (map (point_of x) docs).
Proof.
  intro Hnd. unfold build_series.
  destruct (process_documents docs []
              (fold_left (fun data name => JsMap.set data name [])
                 topExchanges (JsMap.empty _)) Hnd) as [Hts Hdata].
  split; [exact Hts|].
  intros x Hx. apply (Hdata x [] Hx). now apply initial_series.
Qed.
End HistoryFacts.

Section HistoryTheorem.
Context {num : Type} `{JsNumber num}.

Lemma unix_seconds_sorted (docs : list (VolumeDocument num)) :
  Sorted (sorts_before true) docs ->
  StronglySorted Z.le (map (@unix_seconds num) docs).
Proof.
  intro Hs. apply Sorted_StronglySorted in Hs; [|apply sorts_before_trans].
  induction Hs as [|d rest _ IH Hall]; cbn; constructor; [exact IH|].
  apply Forall_forall. intros t Ht. apply in_map_iff in Ht.
  destruct Ht as (e & <- & He). rewrite Forall_forall in Hall.
  specialize (Hall e He). unfold sorts_before in Hall. unfold unix_seconds.
  apply Z.div_le_mono; lia.
Qed.

Lemma series_names (f : string -> nat -> ExchangeTimeSeries num)
    (names : list string) (i : nat) :
  (forall x j, series_name (f x j) = x) ->
  map (@series_name num) (mapi_from f i names) = names.
Proof.
  intro Hf. revert i. induction names as [|n rest IH]; intro i; cbn;
    [reflexivity|].
  now rewrite Hf, IH.
Qed.

(** C9: in a successful answer the series are those of the selected top
    exchanges, once each; every series has exactly one point per snapshot
    of the window, in the snapshots' ascending order and at the snapshot's
    time, so all series have the length of the window; the point's value is
    0 at a snapshot whose stored exchange list does not contain the
    exchange; and [timestamps] is the list of the snapshots' times without
    repetition, in strictly ascending order. *)
Theorem exchange_series_are_aligned (now : Z) (range : string)
    (parsedLimit : option Z) (store : @Collection num)
    (r : ExchangeVolumeHistoryResponse num) :
  GET_exchange_history now range parsedLimit store = Success r ->
  let start := getTimeRangeStart now range in
  let docs := sort_by_timestamp true (find_since start store) in
  (forall d, In d docs <-> In d store /\ (start <= timestamp d)%Z)
  /\ Sorted (sorts_before true) docs
  /\ map (@series_name num) (history_exchanges r)
     = top_exchanges (option_map (fun n => Z.min n 8) parsedLimit) docs
  /\ NoDup (map (@series_name num) (history_exchanges r))
  /\ (forall s,
        In s (history_exchanges r) ->
        series_data s = map (point_of (series_name s)) docs
        /\ List.length (series_data s) = List.length docs
        /\ forall i doc p,
             nth_error docs i = Some doc ->
             nth_error (series_data s) i = Some p ->
             time p = unix_seconds doc
             /\ (~ In (series_name s) (map (@name num) (exchanges doc)) ->
                 value p = num_zero))
  /\ timestamps r = unique (map (@unix_seconds num) docs)
  /\ NoDup (timestamps r)
  /\ StronglySorted Z.lt (timestamps r)
  /\ (forall t, In t (timestamps r)
                <-> exists doc, In doc docs /\ unix_seconds doc = t).
Proof.
  intro Hget. cbv zeta. unfold GET_exchange_history in Hget.
  destruct (isValidTimeRange range); cbn [negb] in Hget; [|discriminate].
  set (docs := sort_by_timestamp true
                 (find_since (getTimeRangeStart now range) store)) in *.
  destruct (last (map Some docs) None) as [lastDoc|]; [|discriminate].
  set (top := top_exchanges (option_map (fun n => Z.min n 8) parsedLimit)
                docs) in *.
  assert (Hnd : NoDup top) by apply top_exchanges_NoDup.
  destruct (build_series_spec docs Hnd) as [Hstamps Hdata].
  destruct (build_series top docs) as [stamps data].
  cbn [fst snd] in Hstamps, Hdata. injection Hget as <-.
  cbn [history_exchanges timestamps].
  assert (Hnames :
            map (@series_name num)
              (mapi (fun name index =>
                       {| series_name := name;
                          series_color := nth_error TREND_COLORS index;
                          series_data :=
                            match JsMap.get data name with
                            | Some d => d
                            | None => []
                            end |}) top) = top)
    by (apply series_names; reflexivity).
  split; [|split; [|split; [|split; [|split; [|split; [|split; [|split]]]]]]].
  - intro d. unfold docs.
    split.
    + intro Hd.
      apply (Permutation_in _ (sort_by_timestamp_perm true _)) in Hd.
      apply filter_In in Hd. destruct Hd as [Hd Hge].
      split; [exact Hd | now apply Z.leb_le].
    + intros [Hd Hge].
      apply (Permutation_in _
               (Permutation_sym (sort_by_timestamp_perm true _))).
      apply filter_In. split; [exact Hd | now apply Z.leb_le].
  - apply sort_by_timestamp_sorted.
  - exact Hnames.
  - now rewrite Hnames.
  - intros s Hs. apply in_mapi_from in Hs.
    destruct Hs as (x & j & Hx & ->). cbn [series_name series_data].
    rewrite (Hdata x Hx).
    split; [reflexivity|]. split; [apply length_map|].
    intros i doc p Hdoc Hp.
    rewrite nth_error_map, Hdoc in Hp. injection Hp as <-.
    split; [reflexivity|]. intro Hout. cbn [value point_of].
    now rewrite volume_map_none.
  - now rewrite Hstamps.
  - rewrite Hstamps. apply unique_aux_NoDup.
  - rewrite Hstamps. apply unique_aux_sorted, unix_seconds_sorted.
    apply sort_by_timestamp_sorted.
  - intro t. rewrite Hstamps. unfold unique. rewrite unique_aux_in.
    rewrite in_map_iff. cbn. split.
    + intros [(doc & E & Hdoc) _]. now exists doc.
    + intros (doc & Hdoc & E). split; [now exists doc | tauto].
Qed.
End HistoryTheorem.

(** The route run on [sample_history] over the last 24 hours: three
    snapshots are in the window, two of them within one second. *)
Lemma exchange_series_are_aligned_witness :
  exists r,
    GET_exchange_history sample_now "24h" (Some 5%Z) sample_history = Success r
    /\ map (fun s => (series_name s, map (@value float) (series_data s)))
         (history_exchanges r)
       = [ ("Binance", [10%float; 12%float; 1%float]);
           ("OKX", [5%float; 0%float; 7%float]) ]
    /\ timestamps r = [1699989200%Z; 1699992800%Z]
    /\ StronglySorted Z.lt (timestamps r).
Proof.
  eexists. split; [vm_compute; reflexivity|].
  split; [reflexivity|]. split; [reflexivity|].
  refine (proj1 (proj2 (proj2 (proj2 (proj2 (proj2 (proj2 (proj2
            (exchange_series_are_aligned (num := float) sample_now "24h"
               (Some 5%Z) sample_history _)))))))));
    vm_compute; reflexivity.
Defined.

(** ** The end-to-end scenarios *)

(** Scenario A: two tickers of exchange X, one of them anomalous, and one
    of exchange Y. *)
Example scenario_A :
  let doc :=
    transformVolumeData 0
      (sample_response
         [ sample_ticker "X" "USDT" 7%float (Some "green") false;
           sample_ticker "X" "USDC" 1000%float (Some "green") true;
           sample_ticker "Y" "USDT" 3%float (Some "yellow") false ]) in
  exchange_count doc = 2%nat
  /\ map (fun e => (name e, volume_usd e, trading_pairs e)) (exchanges doc)
     = [ ("X", 7%float, ["NEAR/USDT"]); ("Y", 3%float, ["NEAR/USDT"]) ].
Proof. split; reflexivity. Qed.

(** Scenario D: the distribution of 15 exchanges trading 1, ..., 15 has 11
    buckets, the last one "Others" worth 5 + 4 + 3 + 2 + 1. *)
Example scenario_D :
  let buckets :=
    build_distribution
      (transformVolumeData 0 (numbered_exchanges 15 float_of_nat)) in
  List.length buckets = 11%nat
  /\ option_map (fun b => (pie_name b, pie_value b)) (nth_error buckets 10)
     = Some ("Others", 15%float)
  /\ reduce_sum (@percentage float) buckets = 100%float.
Proof. repeat split; reflexivity. Qed.

(** * Further properties *)

(** ** The rate limiter's state *)

Lemma checkRateLimit_bound (p : Process) :
  (callCount p <= CALLS_PER_MINUTE)%nat ->
  (callCount (snd (checkRateLimit p)) <= CALLS_PER_MINUTE)%nat.
Proof.
  intro Hc. unfold checkRateLimit.
  destruct (RESET_INTERVAL <? clock p - lastResetTime p)%Z;
    cbn [callCount clock lastResetTime].
  - cbn. unfold CALLS_PER_MINUTE. lia.
  - destruct (Nat.leb_spec CALLS_PER_MINUTE (callCount p)); cbn; lia.
Qed.

Lemma waitForRateLimit_bound (p : Process) :
  (callCount p <= CALLS_PER_MINUTE)%nat ->
  (callCount (waitForRateLimit p) <= CALLS_PER_MINUTE)%nat.
Proof.
  intro Hc. unfold waitForRateLimit.
  destruct (0 <? _)%Z; cbn; [lia | exact Hc].
Qed.

Lemma checkRateLimit_time (p : Process) :
  (lastResetTime p <= clock p)%Z ->
  clock (snd (checkRateLimit p)) = clock p
  /\ (lastResetTime (snd (checkRateLimit p)) <= clock p)%Z.
Proof.
  intro Ht. unfold checkRateLimit.
  destruct (RESET_INTERVAL <? clock p - lastResetTime p)%Z;
    cbn [callCount clock lastResetTime].
  - cbn. lia.
  - destruct (CALLS_PER_MINUTE <=? callCount p)%nat; cbn; lia.
Qed.

Lemma waitForRateLimit_time (p : Process) :
  (lastResetTime p <= clock p)%Z ->
  (clock p <= clock (waitForRateLimit p))%Z
  /\ (lastResetTime (waitForRateLimit p) <= clock (waitForRateLimit p))%Z.
Proof.
  intro Ht. unfold waitForRateLimit.
  destruct (Z.ltb_spec 0 (RESET_INTERVAL - (clock p - lastResetTime p)));
    cbn [clock lastResetTime]; lia.
Qed.

(** X1: whatever the provider answers, a call through [fetchFromCoinGecko]
    leaves the counter at 25 at most when it found it so: the counter never
    exceeds [CALLS_PER_MINUTE]. *)
Theorem counter_stays_within_limit (A : Type)
    (network : list (HttpResponse A)) (p p' : Process) (outcome : Settled A) :
  (callCount p <= CALLS_PER_MINUTE)%nat ->
  fetchFromCoinGecko network p = Some (outcome, p') ->
  (callCount p' <= CALLS_PER_MINUTE)%nat.
Proof.
  revert p. induction network as [|response later IH]; intros p Hc Hrun;
    cbn [fetchFromCoinGecko] in Hrun.
  - destruct (checkRateLimit p); discriminate.
  - pose proof (checkRateLimit_bound p Hc) as Hc1.
    destruct (checkRateLimit p) as [allowed p1]. cbn [snd] in Hc1.
    assert (Hc2 : (callCount (if allowed then p1 else waitForRateLimit p1)
                   <= CALLS_PER_MINUTE)%nat)
      by (destruct allowed; [exact Hc1 | now apply waitForRateLimit_bound]).
    destruct (response_ok response).
    + injection Hrun as _ <-. exact Hc2.
    + destruct (status response =? 429)%Z.
      * apply (IH _ (waitForRateLimit_bound (elapse (latency response) _)
                       Hc2) Hrun).
      * injection Hrun as _ <-. exact Hc2.
Qed.

(** The 26 calls of a window that starts with a reset: the last one waits. *)
Lemma counter_stays_within_limit_witness :
  exists outcome p',
    fetchFromCoinGecko
      [ {| status := 200; statusText := "OK"; latency := 10; body := tt |} ]
      {| clock := 1000; callCount := 25; lastResetTime := 0 |}
    = Some (outcome, p')
    /\ (callCount p' <= CALLS_PER_MINUTE)%nat.
Proof.
  do 2 eexists. split; [reflexivity|].
  apply (counter_stays_within_limit
           [ {| status := 200; statusText := "OK"; latency := 10;
                body := tt |} ]
           {| clock := 1000; callCount := 25; lastResetTime := 0 |}
           (outcome := Fulfilled tt));
    [ vm_compute; lia | reflexivity ].
Defined.

(** X2: when no answer takes negative time, the clock never runs backwards
    during a call, and [lastResetTime] is never left in the future. *)
Theorem reset_time_is_never_ahead (A : Type)
    (network : list (HttpResponse A)) (p p' : Process) (outcome : Settled A) :
  Forall (fun response => (0 <= latency response)%Z) network ->
  (lastResetTime p <= clock p)%Z ->
  fetchFromCoinGecko network p = Some (outcome, p') ->
  (clock p <= clock p')%Z /\ (lastResetTime p' <= clock p')%Z.
Proof.
  revert p. induction network as [|response later IH]; intros p Hl Ht Hrun;
    cbn [fetchFromCoinGecko] in Hrun.
  - destruct (checkRateLimit p); discriminate.
  - apply Forall_cons_iff in Hl. destruct Hl as [Hl0 Hl].
    destruct (checkRateLimit_time p Ht) as [Hk1 Ht1].
    destruct (checkRateLimit p) as [allowed p1]. cbn [snd] in Hk1, Ht1.
    rewrite <- Hk1 in Ht1.
    set (p2 := if allowed then p1 else waitForRateLimit p1) in *.
    assert (H2 : (clock p <= clock p2)%Z /\ (lastResetTime p2 <= clock p2)%Z).
    { unfold p2. destruct allowed; [lia|].
      destruct (waitForRateLimit_time p1 Ht1). lia. }
    destruct H2 as [Hk2 Ht2].
    assert (H3 : (clock p <= clock (elapse (latency response) p2))%Z
                 /\ (lastResetTime (elapse (latency response) p2)
                     <= clock (elapse (latency response) p2))%Z)
      by (cbn; lia).
    destruct H3 as [Hk3 Ht3].
    destruct (response_ok response).
    + injection Hrun as _ <-. split; assumption.
    + destruct (status response =? 429)%Z.
      * destruct (waitForRateLimit_time _ Ht3) as [Hk4 Ht4].
        destruct (IH _ Hl Ht4 Hrun). split; [lia | assumption].
      * injection Hrun as _ <-. split; assumption.
Qed.

(** A throttled request followed by its retry. *)
Lemma reset_time_is_never_ahead_witness :
  exists outcome p',
    fetchFromCoinGecko
      [ {| status := 429; statusText := "Too Many Requests"; latency := 80;
           body := tt |};
        {| status := 200; statusText := "OK"; latency := 10; body := tt |} ]
      {| clock := 1000; callCount := 3; lastResetTime := 0 |}
    = Some (outcome, p')
    /\ (1000 <= clock p')%Z /\ (lastResetTime p' <= clock p')%Z.
Proof.
  do 2 eexists. split; [reflexivity|].
  apply (reset_time_is_never_ahead
           (network :=
              [ {| status := 429; statusText := "Too Many Requests";
                   latency := 80; body := tt |};
                {| status := 200; statusText := "OK"; latency := 10;
                   body := tt |} ])
           {| clock := 1000; callCount := 3; lastResetTime := 0 |}
           (outcome := Fulfilled tt)).
  - repeat constructor; cbn; lia.
  - cbn. lia.
  - reflexivity.
Defined.

(** ** Retries and admission *)

Lemma throttled_not_ok (A : Type) (response : HttpResponse A) :
  status response = 429%Z -> response_ok response = false.
Proof. intro E. unfold response_ok. now rewrite E. Qed.

(** X3: a request answered [429] is sent again, however many times: while
    the provider keeps answering [429] the call does not return, and the
    call's outcome is that of the first answer that is not [429], for any
    state of the rate limiter. *)
Theorem every_throttle_is_retried (A : Type)
    (throttled : list (HttpResponse A)) (p : Process) :
  Forall (fun response => status response = 429%Z) throttled ->
  fetchFromCoinGecko throttled p = None
  /\ forall response later,
       status response <> 429%Z ->
       exists p',
         fetchFromCoinGecko (throttled ++ response :: later) p
         = Some (if response_ok response
                 then Fulfilled (body response)
                 else Rejected (api_error response), p').
Proof.
  intro Hall. revert p.
  induction Hall as [|first rest H429 _ IH]; intro p.
  - split.
    + cbn. now destruct (checkRateLimit p).
    + intros response later Hne. cbn [app fetchFromCoinGecko].
      destruct (checkRateLimit p) as [allowed p1].
      destruct (response_ok response); [now eexists|].
      destruct (Z.eqb_spec (status response) 429); [contradiction|].
      now eexists.
  - split.
    + cbn [fetchFromCoinGecko]. destruct (checkRateLimit p) as [allowed p1].
      rewrite (throttled_not_ok _ H429), H429. cbn [Z.eqb Pos.eqb].
      apply IH.
    + intros response later Hne. cbn [app fetchFromCoinGecko].
      destruct (checkRateLimit p) as [allowed p1].
      rewrite (throttled_not_ok _ H429), H429. cbn [Z.eqb Pos.eqb].
      now apply IH.
Qed.

(** Two [429]s, then a [404]. *)
Lemma every_throttle_is_retried_witness :
  exists p',
    fetchFromCoinGecko
      [ {| status := 429; statusText := "Too Many Requests"; latency := 80;
           body := tt |};
        {| status := 429; statusText := "Too Many Requests"; latency := 80;
           body := tt |};
        {| status := 404; statusText := "Not Found"; latency := 20;
           body := tt |} ]
      {| clock := 1000; callCount := 3; lastResetTime := 0 |}
    = Some (Rejected "CoinGecko API error: 404 Not Found", p').
Proof.
  refine (proj2 (every_throttle_is_retried
                   (throttled :=
                      [ {| status := 429; statusText := "Too Many Requests";
                           latency := 80; body := tt |};
                        {| status := 429; statusText := "Too Many Requests";
                           latency := 80; body := tt |} ])
                   {| clock := 1000; callCount := 3; lastResetTime := 0 |} _)
            {| status := 404; statusText := "Not Found"; latency := 20;
               body := tt |} [] _).
  - repeat constructor.
  - discriminate.
Defined.

Lemma checkRateLimit_in_window (p : Process) :
  (clock p - lastResetTime p <= RESET_INTERVAL)%Z ->
  checkRateLimit p
  = ((callCount p <? CALLS_PER_MINUTE)%nat,
     if (callCount p <? CALLS_PER_MINUTE)%nat
     then {| clock := clock p;
             callCount := S (callCount p);
             lastResetTime := lastResetTime p |}
     else p).
Proof.
  intro Hw. destruct (Nat.ltb_spec (callCount p) CALLS_PER_MINUTE).
  - now apply checkRateLimit_counts.
  - now apply checkRateLimit_saturated.
Qed.

Lemma checks_after_reset (p : Process) (n : nat) :
  let q := Nat.iter n (fun q => snd (checkRateLimit q)) (resetApiCallCount p) in
  callCount q = Nat.min 25 n /\ clock q = clock p /\ lastResetTime q = clock p.
Proof.
  induction n as [|n IH]; [now cbn|].
  cbv zeta in *. rewrite Nat.iter_succ. destruct IH as (Hc & Hk & Hl).
  rewrite checkRateLimit_in_window
    by (rewrite Hk, Hl; unfold RESET_INTERVAL; lia).
  cbn [snd]. unfold CALLS_PER_MINUTE.
  destruct (Nat.ltb_spec
              (callCount
                 (Nat.iter n (fun q => snd (checkRateLimit q))
                    (resetApiCallCount p))) 25);
    cbn [callCount clock lastResetTime]; repeat split; trivial; lia.
Qed.

(** X4: after [resetApiCallCount()], of the checks made at that instant
    exactly the first 25 are admitted: the counter reads [min 25 n] after
    [n] checks, and the next check is admitted exactly when [n < 25]. *)
Theorem a_window_admits_25_calls (p : Process) (n : nat) :
  let q := Nat.iter n (fun q => snd (checkRateLimit q)) (resetApiCallCount p) in
  getApiCallCount q = Nat.min 25 n
  /\ fst (checkRateLimit q) = (n <? 25)%nat.
Proof.
  destruct (checks_after_reset p n) as (Hc & Hk & Hl). cbv zeta.
  split; [exact Hc|].
  rewrite checkRateLimit_in_window
    by (rewrite Hk, Hl; unfold RESET_INTERVAL; lia).
  cbn [fst]. rewrite Hc. unfold CALLS_PER_MINUTE.
  destruct (Nat.ltb_spec (Nat.min 25 n) 25), (Nat.ltb_spec n 25);
    try reflexivity; lia.
Qed.

(** X5: exactly [RESET_INTERVAL] after the last reset a saturated counter
    is neither reset by [checkRateLimit] (which wants more than the
    interval) nor waited for by [waitForRateLimit] (which wants time left):
    the request is sent at once, and the state only sees the time pass. *)
Theorem saturated_call_at_window_end_is_sent (A : Type)
    (response : HttpResponse A) (later : list (HttpResponse A))
    (p : Process) :
  (CALLS_PER_MINUTE <= callCount p)%nat ->
  (clock p - lastResetTime p = RESET_INTERVAL)%Z ->
  response_ok response = true ->
  fetchFromCoinGecko (response :: later) p
  = Some (Fulfilled (body response), elapse (latency response) p).
Proof.
  intros Hc Hw Hok. cbn [fetchFromCoinGecko].
  rewrite checkRateLimit_saturated by (trivial; lia).
  rewrite Hok. unfold waitForRateLimit. rewrite Hw, Z.sub_diag.
  reflexivity.
Qed.

(** The 26th call, 60 000 ms after the reset. *)
Lemma saturated_call_at_window_end_is_sent_witness :
  fetchFromCoinGecko
    [ {| status := 200; statusText := "OK"; latency := 10; body := tt |} ]
    {| clock := 60000; callCount := 25; lastResetTime := 0 |}
  = Some (Fulfilled tt,
          {| clock := 60010; callCount := 25; lastResetTime := 0 |}).
Proof.
  apply (saturated_call_at_window_end_is_sent
           {| status := 200; statusText := "OK"; latency := 10; body := tt |}
           [] {| clock := 60000; callCount := 25; lastResetTime := 0 |});
    [ vm_compute; lia | reflexivity | reflexivity ].
Defined.

(** ** Binary64: the order of the numbers *)

Section Binary64Order.
Local Open Scope Z_scope.

Lemma SFltb_key (x y : spec_float) :
  x <> S754_nan -> y <> S754_nan ->
  (SFltb x y = true <-> key_lt (order_key x) (order_key y)).
Proof.
  intros Hx Hy. unfold SFltb, SFcompare.
  destruct x as [sx|sx| |sx mx ex], y as [sy|sy| |sy my ey];
    try contradiction; try destruct sx; try destruct sy; cbn [order_key key_lt];
    try (split; [discriminate | lia]); try (split; [lia | reflexivity]);
    try (split; [reflexivity | lia]);
    change (Pos.compare_cont Eq mx my) with (mx ?= my)%positive;
    destruct (Z.compare_spec ex ey); try destruct (Pos.compare_spec mx my);
    cbn [CompOpp]; split; intro Hlt; try discriminate; try reflexivity; try lia.
Qed.

Lemma float_not_nan (b : float) :
  (b =? b)%float = true -> Prim2SF b <> S754_nan.
Proof.
  rewrite FloatAxioms.eqb_spec. intros E Hn. rewrite Hn in E. discriminate.
Qed.

Lemma SFltb_not_nan (x y : spec_float) :
  SFltb x y = true -> x <> S754_nan /\ y <> S754_nan.
Proof.
  unfold SFltb, SFcompare.
  destruct x as [sx|sx| |sx mx ex], y as [sy|sy| |sy my ey];
    intro E; try discriminate; split; discriminate.
Qed.

Lemma float_ltb_neg_trans (a b c : float) :
  (b =? b)%float = true ->
  (a <? b)%float = false -> (b <? c)%float = false -> (a <? c)%float = false.
Proof.
  intro Hb. apply float_not_nan in Hb. rewrite !FloatAxioms.ltb_spec.
  revert Hb. generalize (Prim2SF a) (Prim2SF b) (Prim2SF c).
  intros x y z Hy Hxy Hyz.
  destruct (SFltb x z) eqn:Exz; [exfalso | reflexivity].
  destruct (SFltb_not_nan _ _ Exz) as [Hx Hz].
  apply SFltb_key in Exz; trivial.
  assert (Hnxy : ~ key_lt (order_key x) (order_key y))
    by (intro Hk; apply SFltb_key in Hk; trivial; congruence).
  assert (Hnyz : ~ key_lt (order_key y) (order_key z))
    by (intro Hk; apply SFltb_key in Hk; trivial; congruence).
  revert Exz Hnxy Hnyz.
  generalize (order_key x) (order_key y) (order_key z).
  intros [[c1 e1] m1] [[c2 e2] m2] [[c3 e3] m3]. unfold key_lt. lia.
Qed.
End Binary64Order.

#[export] Instance float_negative_transitivity : NegativeTransitivity float.
Proof. split. exact float_ltb_neg_trans. Qed.

(** ** Lists in descending order *)

(** Adjacent order extends to all pairs when the relation is transitive
    through the elements of the list. *)
Lemma Sorted_through (A : Type) (R : A -> A -> Prop) (P : A -> Prop)
    (l : list A) :
  (forall a b c, P b -> R a b -> R b c -> R a c) ->
  Forall P l -> Sorted R l -> StronglySorted R l.
Proof.
  intros Htrans HP Hs.
  induction Hs as [|a l Hs IH Hhd]; constructor.
  - apply IH. now apply Forall_inv_tail in HP.
  - apply Forall_inv_tail in HP. specialize (IH HP).
    destruct Hhd as [|b l' Hab]; constructor; [exact Hab|].
    apply StronglySorted_inv in IH. destruct IH as [_ Hall].
    apply Forall_forall. intros c Hc. rewrite Forall_forall in Hall.
    apply (Htrans a b c); [now apply Forall_inv in HP | exact Hab |].
    now apply Hall.
Qed.

Lemma StronglySorted_split (A : Type) (R : A -> A -> Prop) (n : nat)
    (l : list A) (x y : A) :
  StronglySorted R l -> In x (firstn n l) -> In y (skipn n l) -> R x y.
Proof.
  revert l. induction n as [|n IH]; intros [|a l] Hs Hx Hy; cbn in *;
    try contradiction.
  apply StronglySorted_inv in Hs. destruct Hs as [Hs Hall].
  destruct Hx as [<-|Hx].
  - rewrite Forall_forall in Hall. apply Hall.
    rewrite <- (firstn_skipn n l). apply in_or_app. now right.
  - now apply (IH l).
Qed.

Lemma in_firstn (A : Type) (n : nat) (l : list A) (x : A) :
  In x (firstn n l) -> In x l.
Proof.
  intro Hx. rewrite <- (firstn_skipn n l). apply in_or_app. now left.
Qed.

Section DescendingFacts.
Context {num : Type} `{JsNumber num}.
Context `{!SubtractionOrder num} `{!NegativeTransitivity num}.
Context {A : Type}.
Variable getValue : A -> num.

Lemma js_sort_descending (l : list A) :
  Sorted (descending getValue) (js_sort (fun a b => (getValue b - getValue a)%js) l).
Proof.
  assert (Hs := @js_sort_sorted num _ A
                  (fun a b => (getValue b - getValue a)%js)).
  assert (Hanti : forall a b : A,
             (num_zero <? getValue b - getValue a)%js = true ->
             in_order (fun a b => (getValue b - getValue a)%js) b a).
  { intros a b. unfold in_order. rewrite !sub_positive. apply ltb_asym. }
  specialize (Hs Hanti l). revert Hs.
  generalize (js_sort (fun a b => (getValue b - getValue a)%js) l).
  induction 1 as [|a rest _ IH Hhd]; constructor; trivial.
  destruct Hhd as [|b rest' Hab]; constructor.
  unfold in_order in Hab. unfold descending. now rewrite sub_positive in Hab.
Qed.

Lemma js_sort_strongly_descending (l : list A) :
  Forall (fun x => (getValue x === getValue x)%js = true) l ->
  StronglySorted (descending getValue)
    (js_sort (fun a b => (getValue b - getValue a)%js) l).
Proof.
  intro Hnan.
  apply (Sorted_through
           (P := fun x => (getValue x === getValue x)%js = true)).
  - intros a b c Hb. unfold descending. now apply ltb_neg_trans.
  - apply Forall_forall. intros x Hx. rewrite Forall_forall in Hnan.
    apply Hnan. now apply js_sort_in in Hx.
  - apply js_sort_descending.
Qed.
End DescendingFacts.

(** ** The largest items *)

Section TopFacts.
Context {num : Type} `{JsNumber num}.
Context `{!SubtractionOrder num} `{!NegativeTransitivity num}.


(** X7: the exchanges a snapshot stores and those the truncation drops
    are together the exchanges of the sorted list, and when no exchange's
    [volume_usd] is [NaN], no stored exchange is below a dropped one: the
    stored 20 are the 20 largest. *)
Theorem stored_exchanges_are_the_largest (now : Z)
    (data : CoinGeckoTickersResponse num) :
  let doc := transformVolumeData now data in
  let dropped := skipn 20 (sorted_exchanges (tickers data)) in
  Permutation (sorted_exchanges (tickers data)) (exchanges doc ++ dropped)
  /\ (Forall (fun e => (volume_usd e === volume_usd e)%js = true)
        (sorted_exchanges (tickers data)) ->
      forall e d, In e (exchanges doc) -> In d dropped -> not_below e d).
Proof.
  cbv zeta. unfold transformVolumeData. cbn [exchanges].
  change 20%Z with (Z.of_nat 20). rewrite slice_to_firstn.
  split; [now rewrite firstn_skipn|].
  intros Hnan e d He Hd.
  apply (StronglySorted_split (R := descending (@volume_usd num)) 20
           (l := sorted_exchanges (tickers data))); trivial.
  unfold sorted_exchanges.
  apply (js_sort_strongly_descending (@volume_usd num)).
  rewrite Forall_forall in *. intros x Hx. apply Hnan.
  unfold sorted_exchanges. now apply js_sort_in.
Qed.
End TopFacts.


(** Scenario B: none of the 20 exchanges stored is below one of the 5
    dropped. *)
Lemma stored_exchanges_are_the_largest_witness :
  let doc := transformVolumeData 0 (numbered_exchanges 25 float_of_nat) in
  let dropped :=
    skipn 20 (sorted_exchanges (tickers (numbered_exchanges 25 float_of_nat))) in
  Forall (fun e => Forall (fun d => not_below e d) dropped) (exchanges doc).
Proof.
  cbv zeta. apply Forall_forall. intros e He.
  apply Forall_forall. intros d Hd. revert e d He Hd.
  refine (proj2 (stored_exchanges_are_the_largest (num := float) 0
                   (numbered_exchanges 25 float_of_nat)) _).
  vm_compute. repeat constructor.
Defined.

(** ** The buckets of a snapshot *)

Lemma includes_in (l : list string) (x : string) :
  includes l x = true <-> In x l.
Proof.
  unfold includes. rewrite existsb_exists. split.
  - intros (y & Hy & E). apply String.eqb_eq in E. now subst.
  - intro Hx. exists x. split; [exact Hx | apply String.eqb_refl].
Qed.

Lemma get_of_entry (V : Type) (m : JsMap.t V) (k : string) (v : V) :
  NoDup (JsMap.keys m) -> In (k, v) m -> JsMap.get m k = Some v.
Proof.
  induction m as [|[k' v'] rest IH]; cbn; [contradiction|].
  intros Hnd [E|Hin].
  - injection E as -> ->. now rewrite String.eqb_refl.
  - apply NoDup_cons_iff in Hnd. destruct Hnd as [Hk Hnd].
    destruct (String.eqb_spec k' k) as [->|Hne].
    + exfalso. apply Hk. change k with (fst (k, v)). now apply in_map.
    + now apply IH.
Qed.

Section BucketFacts.
Context {num : Type} `{JsNumber num}.
Implicit Types (ticker : CoinGeckoTicker num)
  (m : JsMap.t (ExchangeVolume num)).

Lemma get_aggregate_ticker m ticker (x : string) :
  JsMap.get (aggregate_ticker m ticker) x
  = if counted ticker && String.eqb (market_name ticker) x
    then Some (absorb (JsMap.get m x) ticker)
    else JsMap.get m x.
Proof.
  unfold aggregate_ticker, counted.
  destruct (is_anomaly ticker || is_stale ticker); cbn [negb andb];
    [reflexivity|].
  destruct (String.eqb_spec (market_name ticker) x) as [<-|Hne].
  - destruct (JsMap.get m (market_name ticker)); apply get_set_same.
  - destruct (JsMap.get m (market_name ticker));
      now apply get_set_other.
Qed.

Lemma get_fold_aggregate (l : list (CoinGeckoTicker num)) m (x : string) :
  JsMap.get (fold_left aggregate_ticker l m) x
  = fold_left (fun entry ticker => Some (absorb entry ticker))
      (tickers_of x l) (JsMap.get m x).
Proof.
  revert m. induction l as [|ticker rest IH]; intro m; cbn; [reflexivity|].
  rewrite IH, get_aggregate_ticker.
  now destruct (counted ticker && String.eqb (market_name ticker) x).
Qed.

(** What a run of tickers adds to an entry. *)
Lemma absorb_all (rest : list (CoinGeckoTicker num))
    (e : ExchangeVolume num) :
  exists e',
    fold_left (fun entry ticker => Some (absorb entry ticker)) rest (Some e)
    = Some e'
    /\ name e' = name e
    /\ volume_usd e'
       = fold_left (fun sum ticker => (sum + converted_volume_usd ticker)%js)
           rest (volume_usd e)
    /\ volume_near e'
       = fold_left (fun sum ticker => (sum + volume ticker)%js)
           rest (volume_near e)
    /\ trust_score e' = trust_score e
    /\ trade_url e' = trade_url e
    /\ (NoDup (trading_pairs e) -> NoDup (trading_pairs e'))
    /\ (forall label,
          In label (trading_pairs e')
          <-> In label (trading_pairs e)
              \/ exists ticker, In ticker rest /\ pair_label ticker = label).
Proof.
  revert e. induction rest as [|ticker rest IH]; intro e; cbn [fold_left].
  - exists e. repeat split; trivial.
    + now left.
    + intros [Hin|(t & [] & _)]. exact Hin.
  - destruct (IH (absorb (Some e) ticker))
      as (e' & Hrun & Hname & Husd & Hnear & Htrust & Hurl & Hnd & Hin).
    exists e'. cbn [absorb name volume_usd volume_near trust_score trade_url
                    trading_pairs] in *.
    split; [exact Hrun|]. repeat split; trivial.
    + intro He. apply Hnd.
      destruct (includes (trading_pairs e) (pair_label ticker)) eqn:E;
        [exact He|].
      apply NoDup_app; [exact He | repeat constructor; intros [] |].
      intros x Hx [<-|[]]. apply includes_in in Hx. congruence.
    + intro Hl. apply Hin in Hl. destruct Hl as [Hl|(t & Ht & E)].
      * destruct (includes (trading_pairs e) (pair_label ticker));
          [now left|].
        apply in_app_iff in Hl. destruct Hl as [Hl|[<-|[]]]; [now left|].
        right. exists ticker. split; [now left | reflexivity].
      * right. exists t. split; [now right | exact E].
    + intro Hl. apply Hin.
      destruct Hl as [Hl|(t & [<-|Ht] & E)].
      * left. destruct (includes (trading_pairs e) (pair_label ticker));
          [exact Hl | apply in_or_app; now left].
      * left. subst label.
        destruct (includes (trading_pairs e) (pair_label ticker)) eqn:Ei.
        -- now apply includes_in.
        -- apply in_or_app. right. now left.
      * right. now exists t.
Qed.

(** The entry of an exchange of the sorted list is its entry of the map. *)
Lemma sorted_exchange_entry (l : list (CoinGeckoTicker num))
    (e : ExchangeVolume num) :
  In e (sorted_exchanges l) ->
  fold_left (fun entry ticker => Some (absorb entry ticker))
    (tickers_of (name e) l) None
  = Some e.
Proof.
  intro He. unfold sorted_exchanges in He. apply js_sort_in in He.
  unfold JsMap.values in He. apply in_map_iff in He.
  destruct He as ([k v] & E & Hin). cbn in E. subst v.
  destruct (@fold_aggregate_invariants num _ l (JsMap.empty _))
    as (Hnd & Hk & _); [constructor | constructor |].
  fold (aggregate l) in Hnd, Hk.
  unfold keyed_by_name in Hk. rewrite Forall_forall in Hk.
  pose proof (Hk _ Hin) as Hname. cbn in Hname. subst k.
  transitivity (JsMap.get (aggregate l) (name e)).
  - symmetry. apply (get_fold_aggregate l (JsMap.empty _) (name e)).
  - now apply get_of_entry.
Qed.

Lemma stored_exchange_tickers (now : Z) (data : CoinGeckoTickersResponse num)
    (e : ExchangeVolume num) :
  In e (exchanges (transformVolumeData now data)) ->
  exists first rest,
    tickers_of (name e) (tickers data) = first :: rest
    /\ fold_left (fun entry ticker => Some (absorb entry ticker)) rest
         (Some (absorb None first))
       = Some e.
Proof.
  unfold transformVolumeData. cbn [exchanges].
  change 20%Z with (Z.of_nat 20). rewrite slice_to_firstn.
  intro He. apply in_firstn in He. apply sorted_exchange_entry in He.
  destruct (tickers_of (name e) (tickers data)) as [|first rest];
    [discriminate|].
  now exists first, rest.
Qed.

(** X8: every exchange of a snapshot has a first counted ticker; its
    volumes are that ticker's volumes with those of the exchange's later
    counted tickers added one by one in the order met, and its trust
    indicator and trade URL are those of the first ticker. *)
Theorem bucket_sums_its_tickers (now : Z) (data : CoinGeckoTickersResponse num)
    (e : ExchangeVolume num) :
  In e (exchanges (transformVolumeData now data)) ->
  exists first rest,
    tickers_of (name e) (tickers data) = first :: rest
    /\ volume_usd e
       = fold_left (fun sum ticker => (sum + converted_volume_usd ticker)%js)
           rest (converted_volume_usd first)
    /\ volume_near e
       = fold_left (fun sum ticker => (sum + volume ticker)%js)
           rest (volume first)
    /\ trust_score e = ticker_trust_score first
    /\ trade_url e = trade_url_or_undefined (ticker_trade_url first).
Proof.
  intro He. destruct (stored_exchange_tickers now data e He)
    as (first & rest & Ht & Hrun).
  exists first, rest. split; [exact Ht|].
  destruct (absorb_all rest (absorb None first))
    as (e' & Hrun' & _ & Husd & Hnear & Htrust & Hurl & _).
  rewrite Hrun in Hrun'. injection Hrun' as <-.
  repeat split; assumption.
Qed.

(** X9: the trading pairs of every exchange of a snapshot are the labels
    [base/target] of its counted tickers, each listed once, and there is
    at least one. *)
Theorem trading_pairs_are_distinct_labels (now : Z)
    (data : CoinGeckoTickersResponse num) (e : ExchangeVolume num) :
  In e (exchanges (transformVolumeData now data)) ->
  trading_pairs e <> []
  /\ NoDup (trading_pairs e)
  /\ forall label,
       In label (trading_pairs e)
       <-> exists ticker,
             In ticker (tickers_of (name e) (tickers data))
             /\ pair_label ticker = label.
Proof.
  intro He. destruct (stored_exchange_tickers now data e He)
    as (first & rest & Ht & Hrun).
  destruct (absorb_all rest (absorb None first))
    as (e' & Hrun' & _ & _ & _ & _ & _ & Hnd & Hin).
  rewrite Hrun in Hrun'. injection Hrun' as <-.
  cbn [absorb trading_pairs] in Hnd, Hin.
  assert (Hfirst : In (pair_label first) (trading_pairs e))
    by (apply Hin; left; now left).
  split; [|split].
  - intro E. rewrite E in Hfirst. exact Hfirst.
  - apply Hnd. repeat constructor. intros [].
  - intro label. rewrite Ht, Hin. cbn [In]. split.
    + intros [[<-|[]]|(t & Hrest & E)].
      * exists first. split; [now left | reflexivity].
      * exists t. split; [now right | exact E].
    + intros (t & [<-|Hrest] & E).
      * left. now left.
      * right. now exists t.
Qed.
End BucketFacts.

Lemma bucket_sums_its_tickers_witness :
  exists first rest,
    tickers_of "X" (tickers scenario_A_tickers) = first :: rest
    /\ volume_usd scenario_A_bucket
       = fold_left (fun sum ticker => (sum + converted_volume_usd ticker)%js)
           rest (converted_volume_usd first)
    /\ volume_near scenario_A_bucket
       = fold_left (fun sum ticker => (sum + volume ticker)%js)
           rest (volume first)
    /\ trust_score scenario_A_bucket = ticker_trust_score first
    /\ trade_url scenario_A_bucket
       = trade_url_or_undefined (ticker_trade_url first).
Proof.
  apply (bucket_sums_its_tickers (num := float) 0 scenario_A_tickers
           scenario_A_bucket).
  vm_compute. now left.
Defined.

Lemma trading_pairs_are_distinct_labels_witness :
  trading_pairs scenario_A_bucket <> []
  /\ NoDup (trading_pairs scenario_A_bucket).
Proof.
  destruct (trading_pairs_are_distinct_labels (num := float) 0
              scenario_A_tickers scenario_A_bucket) as (Hne & Hnd & _).
  - vm_compute. now left.
  - split; assumption.
Defined.

Section SnapshotShape.
Context {num : Type} `{JsNumber num}.

(** X10: the names of the exchanges a snapshot stores are pairwise
    distinct, and each is the name of an exchange with a counted ticker. *)
Theorem stored_names_are_unique (now : Z) (data : CoinGeckoTickersResponse num) :
  let doc := transformVolumeData now data in
  NoDup (map (@name num) (exchanges doc))
  /\ forall x,
       In x (map (@name num) (exchanges doc)) ->
       exists ticker,
         In ticker (tickers data)
         /\ is_anomaly ticker = false /\ is_stale ticker = false
         /\ market_name ticker = x.
Proof.
  cbv zeta. unfold transformVolumeData. cbn [exchanges].
  change 20%Z with (Z.of_nat 20). rewrite slice_to_firstn, <- firstn_map.
  destruct (aggregate_keys (tickers data)) as (Hnd & Hnames & _).
  split.
  - apply NoDup_firstn.
    apply (Permutation_NoDup (l := JsMap.keys (aggregate (tickers data))));
      [|exact Hnd].
    rewrite <- Hnames. unfold sorted_exchanges.
    apply Permutation_map, Permutation_sym, js_sort_perm.
  - intros x Hx. apply in_firstn in Hx.
    apply in_sorted_exchanges_names in Hx. apply in_map_iff in Hx.
    destruct Hx as (ticker & E & Hin). apply filter_In in Hin.
    destruct Hin as [Hin Hc]. exists ticker. unfold counted in Hc.
    apply negb_true_iff, orb_false_iff in Hc. tauto.
Qed.

(** X11: a snapshot counts no exchange exactly when every ticker is
    flagged stale or anomalous (in particular when there is no ticker); it
    then stores no exchange, its totals are 0 and its distribution has no
    bucket. *)
Theorem snapshot_without_counted_ticker (now : Z)
    (data : CoinGeckoTickersResponse num) :
  let doc := transformVolumeData now data in
  (exchange_count doc = 0%nat
   <-> forall ticker,
         In ticker (tickers data) ->
         is_anomaly ticker || is_stale ticker = true)
  /\ (exchange_count doc = 0%nat ->
      exchanges doc = []
      /\ total_volume_usd doc = num_zero
      /\ total_volume_near doc = num_zero
      /\ build_distribution doc = []).
Proof.
  cbv zeta. split.
  - unfold transformVolumeData. cbn [exchange_count].
    rewrite sorted_exchanges_length. unfold distinct_exchanges. split.
    + intros Hlen ticker Hin.
      destruct (is_anomaly ticker || is_stale ticker) eqn:E; [reflexivity|].
      exfalso.
      assert (Hx : In (market_name ticker)
                     (nodup string_dec
                        (map (@market_name num)
                           (filter counted (tickers data))))).
      { apply nodup_In, in_map, filter_In. split; [exact Hin|].
        unfold counted. now rewrite E. }
      destruct (nodup _ _); [exact Hx | discriminate].
    + intro Hall.
      replace (filter counted (tickers data)) with (@nil (CoinGeckoTicker num));
        [reflexivity|].
      symmetry. induction (tickers data) as [|ticker rest IH];
        [reflexivity|]. cbn.
      unfold counted at 1. rewrite (Hall ticker) by now left. cbn.
      apply IH. intros t Ht. apply Hall. now right.
  - unfold transformVolumeData.
    cbn [exchange_count exchanges total_volume_usd total_volume_near].
    intro Hlen. apply length_zero_iff_nil in Hlen.
    unfold build_distribution. cbn [exchanges total_volume_usd].
    rewrite Hlen. repeat split.
Qed.
End SnapshotShape.

(** ** Grouping *)

Section GroupingFacts.
Context {num : Type} `{JsNumber num}.

Lemma or_zero_zero : or_zero (Some num_zero) = num_zero.
Proof. unfold or_zero. now destruct (truthy num_zero). Qed.

Section OneGrouping.
Context {A : Type}.
Variables (getKey : A -> string) (getValue : A -> num).

Lemma get_group_fold (items : list A) (m : JsMap.t num) (k : string) :
  JsMap.get
    (fold_left
       (fun result item =>
          JsMap.set result (getKey item)
            (or_zero (JsMap.get result (getKey item)) + getValue item)%js)
       items m) k
  = fold_left (fun entry item => Some (or_zero entry + getValue item)%js)
      (filter (fun item => String.eqb (getKey item) k) items)
      (JsMap.get m k).
Proof.
  revert m. induction items as [|item rest IH]; intro m; cbn;
    [reflexivity|].
  rewrite IH. destruct (String.eqb_spec (getKey item) k) as [<-|Hne]; cbn.
  - now rewrite get_set_same.
  - now rewrite get_set_other.
Qed.

Lemma group_fold_some (items : list A) (sum : num) :
  fold_left (fun entry item => Some (or_zero entry + getValue item)%js)
    items (Some sum)
  = Some (fold_left (add_to_group getValue) items sum).
Proof.
  revert sum. induction items as [|item rest IH]; intro sum; cbn;
    [reflexivity | apply IH].
Qed.

(** X12: [groupAndSum] has one entry per key that occurs, and none for
    another key; the entry of a key is the running sum of the values of
    the items of that key, in their order, started from 0. *)
Theorem groupAndSum_groups (items : list A) :
  NoDup (JsMap.keys (groupAndSum items getKey getValue))
  /\ forall k,
       JsMap.get (groupAndSum items getKey getValue) k
       = match filter (fun item => String.eqb (getKey item) k) items with
         | [] => None
         | group => Some (fold_left (add_to_group getValue) group num_zero)
         end.
Proof.
  split.
  - unfold groupAndSum. generalize (NoDup_nil string).
    change (@nil string) with (JsMap.keys (JsMap.empty num)).
    generalize (JsMap.empty num).
    induction items as [|item rest IH]; intros m Hm; cbn; [exact Hm|].
    apply IH. now apply NoDup_keys_set.
  - intro k. unfold groupAndSum. rewrite get_group_fold.
    destruct (filter _ items) as [|item rest]; [reflexivity|].
    cbn [fold_left JsMap.get JsMap.empty].
    rewrite group_fold_some. do 2 f_equal.
    unfold add_to_group. now rewrite or_zero_zero.
Qed.
End OneGrouping.

(** X13: the totals by which the exchange-history route ranks the
    exchanges are [groupAndSum] of the exchanges of all the window's
    snapshots, keyed by name and valued by [volume_usd]. *)
Theorem exchange_totals_group_by_name
    (historicalVolumes : list (VolumeDocument num)) :
  exchange_totals historicalVolumes
  = groupAndSum (flat_map (@exchanges num) historicalVolumes)
      (@name num) (@volume_usd num).
Proof.
  unfold exchange_totals, groupAndSum. generalize (JsMap.empty num).
  induction historicalVolumes as [|doc rest IH]; intro m; cbn;
    [reflexivity|].
  rewrite fold_left_app. apply IH.
Qed.
End GroupingFacts.

(** ** The cron secret *)

Lemma substring_all (s : string) : String.substring 0 (String.length s) s = s.
Proof. induction s as [|c s IH]; cbn; [reflexivity | now rewrite IH]. Qed.

Lemma prefix_split (p s : string) :
  String.prefix p s = true ->
  s = (p ++ String.substring (String.length p)
              (String.length s - String.length p) s)%string.
Proof.
  revert s. induction p as [|a p IH]; intros s Hp; cbn.
  - now rewrite Nat.sub_0_r, substring_all.
  - destruct s as [|b s]; cbn in Hp; [discriminate|].
    destruct (Ascii.ascii_dec a b) as [<-|]; [|discriminate].
    cbn. f_equal. now apply IH.
Qed.

Lemma remove_first_eq (p s : string) :
  remove_first p s
  = if String.prefix p s
    then String.substring (String.length p)
           (String.length s - String.length p) s
    else match s with
         | EmptyString => EmptyString
         | String c rest => String c (remove_first p rest)
         end.
Proof. destruct s; reflexivity. Qed.

(** [replace] either leaves the string as it is or takes one occurrence of
    the pattern out of it. *)
Lemma remove_first_cases (p s : string) :
  remove_first p s = s
  \/ exists before after,
       s = (before ++ p ++ after)%string
       /\ remove_first p s = (before ++ after)%string.
Proof.
  induction s as [|c s IH]; rewrite remove_first_eq.
  - destruct (String.prefix p "") eqn:Hp; [|now left].
    right. exists ""%string. eexists. split; [|reflexivity].
    now apply prefix_split.
  - destruct (String.prefix p (String c s)) eqn:Hp.
    + right. exists ""%string. eexists. split; [|reflexivity].
      now apply prefix_split.
    + destruct IH as [->|(before & after & -> & ->)]; [now left|].
      right. now exists (String c before), after.
Qed.

Lemma remove_first_absent (p s : string) :
  (forall before after, s <> (before ++ p ++ after)%string) ->
  remove_first p s = s.
Proof.
  induction s as [|c s IH]; intro Habsent; rewrite remove_first_eq.
  - destruct (String.prefix p "") eqn:Hp; [|reflexivity].
    exfalso. apply (Habsent ""%string _ (prefix_split _ _ Hp)).
  - destruct (String.prefix p (String c s)) eqn:Hp.
    + exfalso. apply (Habsent ""%string _ (prefix_split _ _ Hp)).
    + f_equal. apply IH. intros before after ->.
      now apply (Habsent (String c before) after).
Qed.

(** X14: when a secret is configured, the header [Bearer <secret>] is
    accepted, and so is the bare secret as long as the text [Bearer ] does
    not occur in it. *)
Theorem secret_is_accepted_with_or_without_bearer (secret : string) :
  secret <> ""%string ->
  validateCronSecret (Some secret) (Some ("Bearer " ++ secret)%string) = true
  /\ ((forall before after,
          secret <> (before ++ "Bearer " ++ after)%string) ->
      validateCronSecret (Some secret) (Some secret) = true).
Proof.
  intro Hsecret. split.
  - unfold validateCronSecret.
    change ("Bearer " ++ secret)%string
      with (String "B" (String "e" (String "a" (String "r" (String "e"
             (String "r" (String " " secret))))))).
    cbv iota.
    replace (remove_first "Bearer " _) with secret.
    + destruct secret; [contradiction | apply String.eqb_refl].
    + rewrite remove_first_eq. cbn.
      replace (String.prefix "" secret) with true by now destruct secret.
      now rewrite Nat.sub_0_r, substring_all.
  - intro Habsent. unfold validateCronSecret.
    rewrite (remove_first_absent _ Habsent).
    destruct secret; [contradiction | apply String.eqb_refl].
Qed.

Lemma secret_is_accepted_with_or_without_bearer_witness :
  validateCronSecret (Some "s3cret"%string) (Some "Bearer s3cret"%string)
  = true.
Proof.
  refine (proj1 (@secret_is_accepted_with_or_without_bearer "s3cret" _)).
  discriminate.
Defined.

(** X15: a request is accepted only when a non-empty secret is configured
    and the header is that secret, either as it is or with one [Bearer ]
    put in somewhere; with no secret configured, or an empty one, or no
    header, nothing is accepted. *)
Theorem accepted_header_carries_the_secret
    (CRON_SECRET authHeader : option string) :
  validateCronSecret CRON_SECRET authHeader = true ->
  exists secret header,
    CRON_SECRET = Some secret /\ secret <> ""%string
    /\ authHeader = Some header
    /\ (header = secret
        \/ exists before after,
             header = (before ++ "Bearer " ++ after)%string
             /\ secret = (before ++ after)%string).
Proof.
  unfold validateCronSecret.
  destruct authHeader as [header|]; [|discriminate].
  destruct header as [|c header]; [discriminate|].
  destruct CRON_SECRET as [secret|]; [|discriminate].
  destruct secret as [|c' secret]; [discriminate|].
  intro Heq. apply String.eqb_eq in Heq.
  exists (String c' secret), (String c header).
  repeat split; [discriminate|].
  destruct (remove_first_cases "Bearer " (String c header))
    as [E|(before & after & E1 & E2)].
  - left. congruence.
  - right. exists before, after. split; congruence.
Qed.

Lemma accepted_header_carries_the_secret_witness :
  exists secret header,
    Some "s3cret"%string = Some secret /\ secret <> ""%string
    /\ Some "s3Bearer cret"%string = Some header
    /\ (header = secret
        \/ exists before after,
             header = (before ++ "Bearer " ++ after)%string
             /\ secret = (before ++ after)%string).
Proof.
  apply (accepted_header_carries_the_secret
           (Some "s3cret"%string) (Some "s3Bearer cret"%string)).
  reflexivity.
Defined.

(** ** [GET /api/volumes/history] *)

Section VolumeHistoryFacts.
Context {num : Type} `{JsNumber num}.
Implicit Types (store : @Collection num) (d e : VolumeDocument num).

Lemma ForallOrdPairs_perm (A : Type) (R : A -> A -> Prop) (l l' : list A) :
  (forall x y, R x y -> R y x) ->
  Permutation l l' -> ForallOrdPairs R l -> ForallOrdPairs R l'.
Proof.
  intros Hsym Hp. induction Hp as [|x l l' Hp IH|x y l|l l' l'' _ IH1 _ IH2];
    intro Hl.
  - exact Hl.
  - inversion Hl as [|? ? Hx Hrest]; subst. constructor; [|now apply IH].
    now rewrite <- Hp.
  - inversion Hl as [|? ? Hy Hrest]; subst.
    inversion Hrest as [|? ? Hx Hrest']; subst.
    inversion Hy as [|? ? Hyx Hyl]; subst.
    constructor; [constructor; [now apply Hsym | exact Hx]|].
    now constructor.
  - auto.
Qed.

Lemma ForallOrdPairs_filter (A : Type) (R : A -> A -> Prop)
    (keep : A -> bool) (l : list A) :
  ForallOrdPairs R l -> ForallOrdPairs R (filter keep l).
Proof.
  induction 1 as [|x l Hx _ IH]; cbn; [constructor|].
  destruct (keep x); [|exact IH]. constructor; [|exact IH].
  rewrite Forall_forall in *. intros y Hy. apply filter_In in Hy.
  now apply Hx.
Qed.

Lemma seconds_strictly_sorted (docs : list (VolumeDocument num)) :
  Sorted (sorts_before true) docs ->
  ForallOrdPairs a_second_apart docs ->
  StronglySorted Z.lt (map (@unix_seconds num) docs).
Proof.
  intros Hs Hapart.
  apply Sorted_StronglySorted in Hs; [|apply sorts_before_trans].
  induction Hs as [|d rest Hrest IH Hall]; cbn; [constructor|].
  inversion Hapart as [|? ? Hd Hrest']; subst.
  constructor; [now apply IH|].
  apply Forall_forall. intros t Ht. apply in_map_iff in Ht.
  destruct Ht as (e & <- & He). rewrite Forall_forall in Hall, Hd.
  specialize (Hall e He). specialize (Hd e He).
  unfold sorts_before in Hall. unfold a_second_apart in Hd.
  unfold unix_seconds.
  assert (Hle : (timestamp d + 1 * 1000 <= timestamp e)%Z) by lia.
  apply (Z.div_le_mono _ _ 1000) in Hle; [|lia].
  rewrite Z.div_add in Hle by lia. lia.
Qed.

Lemma find_since_nothing (start : Z) store :
  (forall d, In d store -> (timestamp d < start)%Z) ->
  find_since start store = [].
Proof.
  unfold find_since. induction store as [|d rest IH]; intro Hold; cbn;
    [reflexivity|].
  destruct (Z.leb_spec start (timestamp d)) as [Hge|_].
  - specialize (Hold d (or_introl eq_refl)). lia.
  - apply IH. intros e He. apply Hold. now right.
Qed.

(** X16: the route answers 400 exactly for a range that is none of the four,
    whatever the collection holds; for a valid range it answers 404 exactly
    when the collection is empty; a collection whose snapshots are all older
    than the window is answered with success. *)
Theorem volume_history_status (now : Z) (range : string) store :
  match GET_volume_history now range store with
  | BadRequest _ => isValidTimeRange range = false
  | NotFound _ => isValidTimeRange range = true /\ store = []
  | Success data =>
      isValidTimeRange range = true /\ store <> []
      /\ (historical data = []
          <-> forall d, In d store ->
                (timestamp d < getTimeRangeStart now range)%Z)
  end.
Proof.
  unfold GET_volume_history.
  destruct (isValidTimeRange range); cbn [negb]; [|reflexivity].
  pose proof (findOne_spec false store) as Hlatest.
  destruct (findOne store false) as [latest|]; [|now split].
  destruct Hlatest as [Hin _].
  split; [reflexivity|]. split; [now intros ->|].
  cbn [historical]. split.
  - intros Hnil d Hd.
    apply map_eq_nil in Hnil.
    pose proof (sort_by_timestamp_perm true
                  (find_since (getTimeRangeStart now range) store)) as Hp.
    rewrite Hnil in Hp. apply Permutation_nil in Hp.
    destruct (Z.ltb_spec (timestamp d) (getTimeRangeStart now range))
      as [Hlt|Hge]; [exact Hlt|].
    exfalso. assert (Hd' : In d (find_since (getTimeRangeStart now range)
                                   store)).
    { apply filter_In. split; [exact Hd | now apply Z.leb_le]. }
    now rewrite Hp in Hd'.
  - intro Hold.
    replace (find_since (getTimeRangeStart now range) store) with
      (@nil (VolumeDocument num)); [reflexivity|].
    symmetry. now apply find_since_nothing.
Qed.

(** X17: a successful answer has one point for every snapshot of the window
    and no other, at the snapshot's second and with its stored total; the
    points' times never decrease; and [lastUpdated] is the time of a
    snapshot of the collection that no snapshot is later than, be it in
    the window or not. *)
Theorem volume_history_points (now : Z) (range : string) store
    (data : VolumeHistoryResponse num) :
  GET_volume_history now range store = Success data ->
  Permutation (historical data)
    (map (fun d => {| time := unix_seconds d; value := total_volume_usd d |})
       (find_since (getTimeRangeStart now range) store))
  /\ StronglySorted Z.le (map (@time num) (historical data))
  /\ (exists d, In d store /\ volume_history_lastUpdated data = timestamp d)
  /\ (forall d, In d store ->
        (timestamp d <= volume_history_lastUpdated data)%Z).
Proof.
  unfold GET_volume_history.
  destruct (isValidTimeRange range); cbn [negb]; [|discriminate].
  pose proof (findOne_spec false store) as Hlatest.
  destruct (findOne store false) as [latest|]; [|discriminate].
  intro Hdata. injection Hdata as <-. cbn [historical volume_history_lastUpdated].
  destruct Hlatest as [Hin Hmax]. repeat split.
  - apply Permutation_map, sort_by_timestamp_perm.
  - rewrite map_map. cbn [time].
    apply unix_seconds_sorted, sort_by_timestamp_sorted.
  - now exists latest.
  - intros d Hd. apply (Hmax d Hd).
Qed.

(** X18: when the snapshots of the collection are pairwise at least one
    second apart, in whatever order they were inserted, the times of the
    points are strictly ascending. *)
Theorem volume_history_times_are_distinct (now : Z) (range : string) store
    (data : VolumeHistoryResponse num) :
  ForallOrdPairs a_second_apart store ->
  GET_volume_history now range store = Success data ->
  StronglySorted Z.lt (map (@time num) (historical data)).
Proof.
  intro Hapart. unfold GET_volume_history.
  destruct (isValidTimeRange range); cbn [negb]; [|discriminate].
  destruct (findOne store false) as [latest|]; [|discriminate].
  intro Hdata. injection Hdata as <-. cbn [historical].
  rewrite map_map. cbn [time].
  apply seconds_strictly_sorted; [apply sort_by_timestamp_sorted|].
  apply (ForallOrdPairs_perm (l := find_since (getTimeRangeStart now range)
                                     store)).
  - unfold a_second_apart. intros x y. lia.
  - apply Permutation_sym, sort_by_timestamp_perm.
  - now apply ForallOrdPairs_filter.
Qed.
End VolumeHistoryFacts.

Lemma volume_history_points_witness :
  exists data,
    GET_volume_history sample_now "24h" sample_history = Success data
    /\ StronglySorted Z.le (map (@time float) (historical data)).
Proof.
  eexists. split; [reflexivity|].
  refine (proj1 (proj2 (volume_history_points sample_now "24h"
                          sample_history _))).
  reflexivity.
Defined.

Lemma volume_history_times_are_distinct_witness :
  exists data,
    GET_volume_history sample_now "24h" (scenario_C sample_now) = Success data
    /\ StronglySorted Z.lt (map (@time float) (historical data)).
Proof.
  eexists. split; [reflexivity|].
  refine (volume_history_times_are_distinct sample_now "24h"
            (store := scenario_C sample_now) _ _).
  - repeat constructor. vm_compute. discriminate.
  - reflexivity.
Defined.

(** ** Buckets, series and their colours *)

Lemma mapi_from_length (A B : Type) (f : A -> nat -> B) (l : list A)
    (i : nat) :
  List.length (mapi_from f i l) = List.length l.
Proof.
  revert i. induction l as [|x rest IH]; intro i; cbn;
    [reflexivity | now rewrite IH].
Qed.

Lemma mapi_from_nth_error (A B : Type) (f : A -> nat -> B) (l : list A)
    (i k : nat) (y : B) :
  nth_error (mapi_from f i l) k = Some y ->
  exists x, nth_error l k = Some x /\ y = f x (i + k)%nat.
Proof.
  revert i k. induction l as [|x rest IH]; intros i [|k]; cbn;
    try discriminate.
  - intros [= <-]. exists x. now rewrite Nat.add_0_r.
  - intro Hy. destruct (IH _ _ Hy) as (x' & Hx' & ->). exists x'.
    split; [exact Hx'|]. f_equal. lia.
Qed.

Lemma slice_to_length (A : Type) (l : list A) (e : Z) :
  List.length (slice_to l e)
  = if (e <? 0)%Z then (List.length l - Z.to_nat (- e))%nat
    else Nat.min (Z.to_nat e) (List.length l).
Proof.
  unfold slice_to. destruct (Z.ltb_spec e 0); rewrite length_firstn; lia.
Qed.

Section Colours.
Context {num : Type} `{JsNumber num}.

(** X19: the pie chart has one bucket for each of the first ten stored
    exchanges, named after it, and one more, [Others], exactly when more
    than ten are stored; so it never has more than eleven buckets, and
    every bucket has a colour. *)
Theorem distribution_buckets (latestVolume : VolumeDocument num) :
  let stored := List.length (exchanges latestVolume) in
  map (@pie_name num) (build_distribution latestVolume)
  = (map (@name num) (firstn 10 (exchanges latestVolume))
     ++ if (10 <? stored)%nat then ["Others"%string] else [])
  /\ List.length (build_distribution latestVolume)
     = (if (10 <? stored)%nat then 11%nat else stored)
  /\ Forall (fun bucket => pie_color bucket <> None)
       (build_distribution latestVolume).
Proof.
  intro stored. unfold build_distribution, MAX_DISPLAY_EXCHANGES.
  rewrite slice_to_firstn. fold stored. unfold mapi.
  set (bucket := fun (exchange : ExchangeVolume num) (index : nat) => _).
  assert (Hnames : forall l i,
             map (@pie_name num) (mapi_from bucket i l)
             = map (@name num) l).
  { induction l as [|x rest IH]; intro i; cbn;
      [reflexivity | now rewrite IH]. }
  assert (Hcolours : Forall (fun b => pie_color b <> None)
                       (mapi_from bucket 0
                          (firstn 10 (exchanges latestVolume)))).
  { apply Forall_forall. intros b Hb.
    apply In_nth_error in Hb. destruct Hb as [k Hk].
    assert (Hlt : (k < 10)%nat).
    { apply (Nat.lt_le_trans _
               (List.length (mapi_from bucket 0
                               (firstn 10 (exchanges latestVolume))))).
      - apply nth_error_Some. congruence.
      - rewrite mapi_from_length, length_firstn. lia. }
    apply mapi_from_nth_error in Hk. destruct Hk as (x & _ & ->).
    unfold bucket. cbn [pie_color]. apply nth_error_Some.
    cbn. lia. }
  destruct (Nat.ltb_spec 10 stored) as [Hmore|Hfew].
  - rewrite map_app, Hnames, length_app, mapi_from_length, length_firstn.
    cbn [map pie_name List.length]. fold stored.
    repeat split; [lia|].
    apply Forall_app. split; [exact Hcolours|].
    constructor; [discriminate | constructor].
  - rewrite Hnames, app_nil_r, mapi_from_length, length_firstn.
    fold stored. repeat split; [lia | exact Hcolours].
Qed.

(** X20: the number of series of a successful answer, from the [limit]
    parameter and the number of exchanges ranked over the window: none for
    a limit that is not a number, at most eight for a limit of 0 or more,
    and all but the last [-limit] for a negative limit, which the cap of
    eight does not bound.  The series at position [i] has a colour exactly
    when [i] is below 8; with a limit of 0 or more every series has one. *)
Theorem series_count_and_colours (now : Z) (range : string)
    (parsedLimit : option Z) (store : @Collection num)
    (data : ExchangeVolumeHistoryResponse num) :
  GET_exchange_history now range parsedLimit store = Success data ->
  let ranked :=
    List.length
      (JsMap.keys
         (exchange_totals
            (sort_by_timestamp true
               (find_since (getTimeRangeStart now range) store)))) in
  List.length (history_exchanges data)
  = match parsedLimit with
    | None => 0%nat
    | Some n =>
        if (n <? 0)%Z then (ranked - Z.to_nat (- n))%nat
        else Nat.min (Z.to_nat (Z.min n 8)) ranked
    end
  /\ (forall i series,
        nth_error (history_exchanges data) i = Some series ->
        series_color series <> None <-> (i < 8)%nat)
  /\ (forall n, parsedLimit = Some n -> (0 <= n)%Z ->
        (List.length (history_exchanges data) <= 8)%nat
        /\ Forall (fun series => series_color series <> None)
             (history_exchanges data)).
Proof.
  unfold GET_exchange_history.
  destruct (isValidTimeRange range); cbn [negb]; [|discriminate].
  set (window := sort_by_timestamp true _).
  destruct (last (map Some window) None) as [lastDoc|]; [|discriminate].
  destruct (build_series _ window) as [times exchangeData].
  intro Hdata. injection Hdata as <-. cbn [history_exchanges]. cbv zeta.
  set (ranked := List.length (JsMap.keys (exchange_totals window))).
  assert (Hcount :
            List.length
              (mapi
                 (fun name index =>
                    {| series_name := name;
                       series_color := nth_error TREND_COLORS index;
                       series_data :=
                         match JsMap.get exchangeData name with
                         | Some points => points
                         | None => []
                         end |})
                 (top_exchanges (option_map (fun n => Z.min n 8) parsedLimit)
                    window))
            = match parsedLimit with
              | None => 0%nat
              | Some n =>
                  if (n <? 0)%Z then (ranked - Z.to_nat (- n))%nat
                  else Nat.min (Z.to_nat (Z.min n 8)) ranked
              end).
  { unfold mapi. rewrite mapi_from_length. unfold top_exchanges.
    rewrite length_map, slice_to_length, js_sort_length.
    unfold JsMap.entries. fold ranked.
    replace (List.length (exchange_totals window)) with ranked
      by (unfold ranked, JsMap.keys; now rewrite length_map).
    destruct parsedLimit as [n|]; cbn [option_map]; [|cbn; lia].
    destruct (Z.ltb_spec n 0), (Z.ltb_spec (Z.min n 8) 0); lia. }
  assert (Hcolour : forall i series,
             nth_error
               (mapi
                  (fun name index =>
                     {| series_name := name;
                        series_color := nth_error TREND_COLORS index;
                        series_data :=
                          match JsMap.get exchangeData name with
                          | Some points => points
                          | None => []
                          end |})
                  (top_exchanges
                     (option_map (fun n => Z.min n 8) parsedLimit) window))
               i = Some series ->
             series_color series <> None <-> (i < 8)%nat).
  { intros i series Hi. unfold mapi in Hi.
    apply mapi_from_nth_error in Hi. destruct Hi as (x & _ & ->).
    cbn [series_color Nat.add]. apply nth_error_Some. }
  split; [exact Hcount|]. split; [exact Hcolour|].
  intros n -> Hn. rewrite Hcount.
  destruct (Z.ltb_spec n 0); [lia|]. split; [lia|].
  apply Forall_forall. intros series Hs.
  apply In_nth_error in Hs. destruct Hs as [i Hi].
  apply (Hcolour i series Hi).
  apply (Nat.lt_le_trans _ (Nat.min (Z.to_nat (Z.min n 8)) ranked));
    [|lia].
  rewrite <- Hcount. apply nth_error_Some. congruence.
Qed.
End Colours.

Lemma series_count_and_colours_witness :
  exists data,
    GET_exchange_history sample_now "24h" (Some (-1)%Z)
      [transformVolumeData (sample_now - 1000)
         (numbered_exchanges 10 float_of_nat)]
    = Success data
    /\ List.length (history_exchanges data) = 9%nat.
Proof.
  eexists. split; [vm_compute; reflexivity|].
  refine (proj1 (series_count_and_colours (num := float) sample_now "24h"
                   (Some (-1)%Z)
                   [transformVolumeData (sample_now - 1000)
                      (numbered_exchanges 10 float_of_nat)] _));
    vm_compute; reflexivity.
Defined.

(** ** [POST /api/cron/fetch-data] *)

Section CronFacts.
Context {num : Type} `{JsNumber num}.
Implicit Types (db : Database num) (request : CronRequest num).

(** What a run does to the database: nothing, or one snapshot appended to
    each collection and the usage document brought up to date. *)
Lemma serve_cases (CRON_SECRET : option string) db request :
  serve CRON_SECRET db request = db
  \/ exists prices volumes,
       serve CRON_SECRET db request
       = {| pricesCollection :=
              pricesCollection db ++ [stamp_price (arrival request) prices];
            volumesCollection :=
              volumesCollection db
              ++ [stamp_volume (arrival request) volumes];
            metadataCollection :=
              Some (roll_daily_counter (arrival request)
                      (record_usage (arrival request)
                         (metadataCollection db))) |}.
Proof.
  unfold serve, POST_cron.
  destruct (validateCronSecret _ _); cbn [negb]; [|now left].
  destruct (fetchAllData _ _ _ _) as [[prices volumes]|reason]; [|now left].
  right. now exists prices, volumes.
Qed.

Lemma utc_day_of_midnight (now : Z) : utc_day (utc_midnight now) = utc_day now.
Proof. unfold utc_midnight, utc_day. now rewrite Z.div_mul. Qed.

Lemma utc_day_mono (a b : Z) : (a <= b)%Z -> (utc_day a <= utc_day b)%Z.
Proof. intro Hab. unfold utc_day. apply Z.div_le_mono; lia. Qed.

(** The usage document after an update at [now]. *)
Lemma usage_after_run (now : Z) (metadata : option MetadataDocument) :
  let usage := roll_daily_counter now (record_usage now metadata) in
  last_updated usage = now
  /\ utc_day (last_reset_date usage) = utc_day now
  /\ api_calls_month usage
     = (match metadata with
        | Some before => api_calls_month before + 3
        | None => 3
        end)%nat
  /\ api_calls_today usage
     = (match metadata with
        | Some before =>
            if (utc_day (last_reset_date before) =? utc_day now)%Z
            then api_calls_today before + 3
            else 3
        | None => 3
        end)%nat.
Proof.
  unfold roll_daily_counter, record_usage.
  destruct metadata as [before|];
    cbn [last_reset_date last_updated api_calls_today api_calls_month].
  - destruct (Z.eqb_spec (utc_day (last_reset_date before)) (utc_day now))
      as [E|_]; cbn; repeat split; try assumption.
    apply utc_day_of_midnight.
  - rewrite utc_day_of_midnight, Z.eqb_refl. cbn. repeat split.
    apply utc_day_of_midnight.
Qed.


Lemma serve_accounted (CRON_SECRET : option string) db request :
  accounted db -> accounted (serve CRON_SECRET db request).
Proof.
  intros [Hlen Husage].
  destruct (serve_cases CRON_SECRET db request)
    as [->|(prices & volumes & ->)]; [now split|].
  unfold accounted.
  cbn [pricesCollection volumesCollection metadataCollection].
  destruct (usage_after_run (arrival request) (metadataCollection db))
    as (_ & _ & Hmonth & Htoday).
  rewrite !length_app. cbn [List.length]. split; [lia|].
  rewrite Hmonth, Htoday.
  destruct (metadataCollection db) as [before|].
  - destruct (_ =? _)%Z; lia.
  - rewrite Husage. cbn. lia.
Qed.


Lemma snapshots_of_earlier_day (day : Z)
    (volumes : list (VolumeDocument num)) :
  Forall (fun d => (utc_day (timestamp d) < day)%Z) volumes ->
  snapshots_of_day day volumes = [].
Proof.
  unfold snapshots_of_day. induction 1 as [|d rest Hd _ IH]; cbn;
    [reflexivity|].
  destruct (Z.eqb_spec (utc_day (timestamp d)) day); [lia | exact IH].
Qed.

Lemma serve_in_step (CRON_SECRET : option string) db request :
  in_step db -> not_after (arrival request) db ->
  in_step (serve CRON_SECRET db request)
  /\ forall later, (arrival request <= later)%Z ->
       not_after later (serve CRON_SECRET db request).
Proof.
  intros Hstep Hbefore.
  destruct (serve_cases CRON_SECRET db request)
    as [->|(prices & volumes & ->)].
  - split; [exact Hstep|]. intros later Hlater. unfold not_after in *.
    destruct (metadataCollection db); [lia | exact I].
  - unfold in_step, not_after in *.
    cbn [pricesCollection volumesCollection metadataCollection].
    destruct (usage_after_run (arrival request) (metadataCollection db))
      as (Hupdated & Hreset & _ & Htoday).
    set (now := arrival request) in *.
    split; [|intros later Hlater; lia].
    rewrite Hupdated, Hreset, Htoday. split; [reflexivity|].
    unfold snapshots_of_day. rewrite filter_app, length_app.
    cbn [filter timestamp stamp_volume]. rewrite Z.eqb_refl.
    cbn [List.length]. fold (snapshots_of_day (utc_day now)
                               (volumesCollection db)).
    destruct (metadataCollection db) as [before|].
    + destruct Hstep as (Hday & Hcount & _ & Hall).
      repeat split.
      * destruct (Z.eqb_spec (utc_day (last_reset_date before))
                    (utc_day now)) as [E|Hne].
        -- rewrite Hcount. rewrite <- E, Hday. lia.
        -- rewrite snapshots_of_earlier_day; [reflexivity|].
           apply (Forall_impl _ (P := fun d =>
                                   (timestamp d <= last_updated before)%Z));
             [|exact Hall].
           intros d Hd. cbn beta in Hd.
           pose proof (utc_day_mono Hd) as Hd'.
           pose proof (utc_day_mono Hbefore) as Hbefore'.
           fold now in Hbefore'. lia.
      * exists (stamp_volume now volumes). split; [|reflexivity].
        apply in_or_app. right. now left.
      * apply Forall_app. split.
        -- apply (Forall_impl _ (P := fun d =>
                                   (timestamp d <= last_updated before)%Z));
             [|exact Hall].
           intros d Hd. cbn beta in Hd. lia.
        -- constructor; [cbn; lia | constructor].
    + rewrite Hstep. repeat split.
      * exists (stamp_volume now volumes). split; [now left | reflexivity].
      * constructor; [cbn; lia | constructor].
Qed.

Lemma serve_all_in_step (CRON_SECRET : option string)
    (requests : list (CronRequest num)) db :
  StronglySorted Z.le (map (@arrival num) requests) ->
  in_step db ->
  (forall request, In request requests -> not_after (arrival request) db) ->
  in_step (serve_all CRON_SECRET requests db).
Proof.
  unfold serve_all. revert db.
  induction requests as [|request rest IH]; intros db Hsorted Hstep Hbefore;
    cbn; [exact Hstep|].
  cbn in Hsorted. apply StronglySorted_inv in Hsorted.
  destruct Hsorted as [Hrest Hfirst].
  destruct (@serve_in_step CRON_SECRET db request Hstep)
    as [Hstep' Hbefore']; [apply Hbefore; now left|].
  apply IH; [exact Hrest | exact Hstep'|].
  intros later Hlater. apply Hbefore'.
  rewrite Forall_forall in Hfirst. apply Hfirst.
  now apply in_map.
Qed.


End CronFacts.



Section Provenance.
Context {num : Type} `{JsNumber num}.

Lemma serve_volume (CRON_SECRET : option string) (db : Database num)
    (request : CronRequest num) (d : VolumeDocument num) :
  In d (volumesCollection (serve CRON_SECRET db request)) ->
  In d (volumesCollection db) \/ stored_by CRON_SECRET [request] d.
Proof.
  unfold serve, POST_cron, stored_by.
  destruct (validateCronSecret _ _) eqn:Hsecret; cbn [negb]; [|now left].
  unfold fetchAllData, promise_all3.
  destruct (prices_call request) as [priceData|] eqn:Hp,
    (coin_call request) as [coinData|] eqn:Hc,
    (tickers_call request) as [tickerData|] eqn:Ht; cbn; try now left.
  intro Hd. apply in_app_or in Hd. destruct Hd as [Hd|[<-|[]]];
    [now left|].
  right. exists request, priceData, coinData, tickerData.
  repeat split; try assumption. now left.
Qed.

(** X25: every volume snapshot in a database filled by the endpoint comes
    from one of the requests it served: a request that passed the secret
    check and whose three provider calls were all fulfilled; and the
    snapshot is the transform of that request's tickers, stamped with its
    arrival. *)
Theorem stored_snapshots_come_from_complete_runs
    (CRON_SECRET : option string) (requests : list (CronRequest num))
    (d : VolumeDocument num) :
  In d (volumesCollection
          (serve_all CRON_SECRET requests (empty_database num))) ->
  stored_by CRON_SECRET requests d.
Proof.
  assert (Hany : forall db,
             In d (volumesCollection (serve_all CRON_SECRET requests db)) ->
             In d (volumesCollection db)
             \/ stored_by CRON_SECRET requests d).
  { unfold serve_all.
    induction requests as [|request rest IH]; intros db Hd; cbn in Hd;
      [now left|].
    destruct (IH _ Hd) as [Hd'|(r & p & c & t & Hr & Hrest)].
    - destruct (serve_volume _ _ _ _ Hd')
        as [Hold|(r & p & c & t & [<-|[]] & Hrest)]; [now left|].
      right. exists request, p, c, t. split; [now left | exact Hrest].
    - right. exists r, p, c, t. split; [now right | exact Hrest]. }
  intro Hd. destruct (Hany _ Hd) as [[]|Hstored]. exact Hstored.
Qed.
End Provenance.

Lemma stored_snapshots_come_from_complete_runs_witness :
  stored_by (Some "s3cret") sample_requests
    (transformVolumeData sample_now
       (sample_response
          [sample_ticker "Binance" "USDT" 5%float (Some "green") false])).
Proof.
  apply stored_snapshots_come_from_complete_runs.
  vm_compute. now left.
Defined.
